(** * CrecheBooks tenant-scope codemod scripts: shallow embedding

    The five Python scripts under [apps/api] repair TypeScript sources that
    use a nullable tenant identifier.  This development embeds their text
    processing (string slicing, [str.replace], line splitting, the [re]
    patterns, the per-line rewriting state machines, the backward scan of the
    boundary locator and the write decision) and states the properties of the
    patch engine against that embedding.

    Text is a sequence of characters; a character is modelled as an 8-bit
    [ascii], read as a code point below 256.  Character classes and case
    mapping follow CPython's tables on that range. *)

From Stdlib Require Import Ascii String.
From Stdlib Require Import List Arith Bool Lia Sorted Permutation.
Import ListNotations.

(** ** Python string primitives *)

Module Py.

Definition text := list ascii.

Definition str (s : string) : text := list_ascii_of_string s.
Arguments str : simpl never.

Definition nl : ascii := "010"%char.
Definition dquote : ascii := "034"%char.

Definition text_eqb (a b : text) : bool :=
  if list_eq_dec ascii_dec a b then true else false.

(** [s.startswith(p)] *)
Fixpoint starts_with (p s : text) : bool :=
  match p, s with
  | [], _ => true
  | _ :: _, [] => false
  | a :: p', b :: s' => Ascii.eqb a b && starts_with p' s'
  end.

(** [s.endswith(p)] *)
Definition ends_with (p s : text) : bool := starts_with (rev p) (rev s).

(** [needle in hay] *)
Fixpoint contains (needle hay : text) : bool :=
  starts_with needle hay ||
  match hay with
  | [] => false
  | _ :: hay' => contains needle hay'
  end.

(** [c in line] for a single character *)
Definition has_char (c : ascii) (s : text) : bool := existsb (Ascii.eqb c) s.

(** [s.replace(old, new)] for a non-empty [old]: occurrences are taken left
    to right and do not overlap; [skip] counts the characters of the current
    occurrence still to be dropped. *)
Fixpoint replace_from (old new s : text) (skip : nat) : text :=
  match s with
  | [] => []
  | c :: s' =>
      match skip with
      | S n => replace_from old new s' n
      | O =>
          if starts_with old s
          then new ++ replace_from old new s' (List.length old - 1)
          else c :: replace_from old new s' 0
      end
  end.

Definition replace (old new s : text) : text := replace_from old new s 0.

(** [s.split('\n')]: never empty, a trailing newline gives a final empty
    piece. *)
Fixpoint split_nl (s : text) : list text :=
  match s with
  | [] => [[]]
  | c :: s' =>
      if Ascii.eqb c nl then [] :: split_nl s'
      else match split_nl s' with
           | l :: ls => (c :: l) :: ls
           | [] => [[c]]
           end
  end.

(** ['\n'.join(ls)] *)
Fixpoint join_nl (ls : list text) : text :=
  match ls with
  | [] => []
  | l :: ls' =>
      match ls' with
      | [] => l
      | _ :: _ => l ++ nl :: join_nl ls'
      end
  end.

(** [''.join(ls)] *)
Definition join (ls : list text) : text := concat ls.

Definition in_range (lo hi n : nat) : bool := (lo <=? n) && (n <=? hi).

(** [str.isspace] / the class [\s] of a [str] pattern, code points < 256. *)
Definition is_space (c : ascii) : bool :=
  let n := nat_of_ascii c in
  in_range 9 13 n || in_range 28 32 n || (n =? 133) || (n =? 160).

(** The class [\w] of a [str] pattern, code points < 256. *)
Definition is_word (c : ascii) : bool :=
  let n := nat_of_ascii c in
  in_range 48 57 n || in_range 65 90 n || (n =? 95) || in_range 97 122 n ||
  (n =? 170) || (n =? 178) || (n =? 179) || (n =? 181) || (n =? 185) ||
  (n =? 186) || in_range 188 190 n || in_range 192 214 n ||
  in_range 216 246 n || in_range 248 255 n.

(** [str.lower], code points < 256. *)
Definition lower_char (c : ascii) : ascii :=
  let n := nat_of_ascii c in
  if in_range 65 90 n || (in_range 192 222 n && negb (n =? 215))
  then ascii_of_nat (n + 32) else c.

Definition lower (s : text) : text := map lower_char s.

(** [s.lstrip()], [s.strip()] *)
Fixpoint lstrip (s : text) : text :=
  match s with
  | [] => []
  | c :: s' => if is_space c then lstrip s' else s
  end.

Definition rstrip (s : text) : text := rev (lstrip (rev s)).
Definition strip (s : text) : text := rstrip (lstrip s).

(** Slices [s[a:]], [s[:a]], [s[a:b]] with [0 <= a <= b]. *)
Definition slice_from (a : nat) (s : text) : text := skipn a s.
Definition slice_to (a : nat) (s : text) : text := firstn a s.
Definition slice (a b : nat) (s : text) : text := firstn (b - a) (skipn a s).

(** [s[:p] + ins + s[p:]] *)
Definition insert_at (p : nat) (ins s : text) : text :=
  slice_to p s ++ ins ++ slice_from p s.

End Py.

Import Py.

(** The literals shared by the scripts. *)
Definition unsafe_expr : text := str "user.tenantId".
Definition safe_name : text := str "tenantId".
Definition guard_test : text := str "!user.tenantId".
Definition guard_binding : text := str "const tenantId = user.tenantId".

(** The text of the inserted null check, line by line. *)
Definition guard_if_line : text := str "    if (!user.tenantId) {".
Definition guard_throw_line : text :=
  str "      throw new Error('This operation requires a tenant. SUPER_ADMIN users cannot access tenant-specific data.');".
Definition guard_close_line : text := str "    }".
Definition guard_bind_line : text := str "    const tenantId = user.tenantId;".

(** [null_check]: the triple-quoted literal of fix-all-tenant-nulls.py and
    fix-remaining-nulls.py (it starts and ends with a newline). *)
Definition null_check : text :=
  nl :: guard_if_line ++ nl :: guard_throw_line ++ nl :: guard_close_line
     ++ nl :: guard_bind_line ++ [nl].

(** ** The reference rewriter of fix-all-tenant-nulls.py (lines 48-71) and of
    fix-remaining-nulls.py (lines 44-66) *)

Module Rewriter.

(** One iteration of [for line in lines], with [in_null_check] threaded. *)
Definition step (in_null_check : bool) (line : text) : bool * text :=
  if contains guard_test line then (true, line)
  else if in_null_check then
    (negb (contains guard_binding line), line)
  else
    (false,
     if contains unsafe_expr line && negb (contains (str "logger") (lower line))
     then replace unsafe_expr safe_name line
     else line).

Fixpoint run (in_null_check : bool) (lines : list text) : list text :=
  match lines with
  | [] => []
  | line :: rest =>
      let '(st, out) := step in_null_check line in
      out :: run st rest
  end.

(** The value of [in_null_check] after the loop has consumed [lines]. *)
Fixpoint state_after (in_null_check : bool) (lines : list text) : bool :=
  match lines with
  | [] => in_null_check
  | line :: rest => state_after (fst (step in_null_check line)) rest
  end.

Definition rewrite (content : text) : text :=
  join_nl (run false (split_nl content)).

End Rewriter.

(** ** fix-reconciliation-nulls.py, the rewriting loop (lines 38-60) *)

Module ReconRewriter.

Definition step (in_null_check : bool) (line : text) : bool * text :=
  if contains guard_test line || contains guard_binding line then (true, line)
  else if in_null_check && text_eqb (strip line) (str "}") then (false, line)
  else
    (in_null_check,
     if negb in_null_check && contains unsafe_expr line
     then replace unsafe_expr safe_name line
     else line).

Fixpoint run (in_null_check : bool) (lines : list text) : list text :=
  match lines with
  | [] => []
  | line :: rest =>
      let '(st, out) := step in_null_check line in
      out :: run st rest
  end.

(** The value of [in_null_check] after the loop has consumed [lines]. *)
Fixpoint state_after (in_null_check : bool) (lines : list text) : bool :=
  match lines with
  | [] => in_null_check
  | line :: rest => state_after (fst (step in_null_check line)) rest
  end.

Definition rewrite (content : text) : text :=
  join_nl (run false (split_nl content)).

End ReconRewriter.

(** ** The fragment of Python's [re] used by the scripts

    A backtracking matcher with Python's priorities: alternatives are tried
    left to right, repetition is greedy.  Every repetition in the scripts'
    patterns is over a single character class, so [Many] takes a class. *)

Module Re.

Inductive cls : Type :=
| CChar (c : ascii)           (* a literal character *)
| CNot (c : ascii)            (* [[^c]] *)
| COneOf (cs : list ascii)    (* [[abc]] *)
| CSpace                      (* [\s] *)
| CWord                       (* [\w] *)
| CDot.                       (* [.], no DOTALL: anything but a newline *)

Definition cls_ok (k : cls) (x : ascii) : bool :=
  match k with
  | CChar c => Ascii.eqb c x
  | CNot c => negb (Ascii.eqb c x)
  | COneOf cs => existsb (Ascii.eqb x) cs
  | CSpace => is_space x
  | CWord => is_word x
  | CDot => negb (Ascii.eqb x nl)
  end.

Inductive re : Type :=
| Eps
| One (k : cls)
| Seq (a b : re)
| Alt (a b : re)              (* [a|b], [a] first *)
| Many (k : cls)              (* [k*], greedy *)
| Group (n : nat) (r : re)    (* capturing group number [n] *)
| NotAfter (w : text)         (* [(?<!w)] for a literal [w] *)
| WordB.                      (* [\b] *)

Fixpoint lit (s : text) : re :=
  match s with
  | [] => Eps
  | c :: s' => Seq (One (CChar c)) (lit s')
  end.

Definition plus (k : cls) : re := Seq (One k) (Many k).   (* [k+] *)
Definition opt (r : re) : re := Alt r Eps.                 (* [(?:r)?] *)

Fixpoint seqs (rs : list re) : re :=
  match rs with
  | [] => Eps
  | r :: rs' => Seq r (seqs rs')
  end.

(** A matcher configuration: the text already passed (most recent character
    first), the text ahead, and the groups captured so far (latest first). *)
Record cfg : Type := Cfg {
  seen : text;
  rest : text;
  caps : list (nat * text)
}.

Definition head_is_word (s : text) : bool :=
  match s with
  | [] => false
  | x :: _ => is_word x
  end.

(** The text consumed between two configurations of one run. *)
Definition consumed (c c' : cfg) : text :=
  rev (firstn (List.length (seen c') - List.length (seen c)) (seen c')).

Fixpoint many (k : cls) (sn rs : text) (kont : text -> text -> option cfg)
  : option cfg :=
  match rs with
  | [] => kont sn rs
  | x :: rs' =>
      if cls_ok k x then
        match many k (x :: sn) rs' kont with
        | Some res => Some res
        | None => kont sn rs
        end
      else kont sn rs
  end.

Fixpoint exec (r : re) (c : cfg) (kont : cfg -> option cfg) : option cfg :=
  match r with
  | Eps => kont c
  | One k =>
      match rest c with
      | [] => None
      | x :: rs =>
          if cls_ok k x then kont (Cfg (x :: seen c) rs (caps c)) else None
      end
  | Seq a b => exec a c (fun c' => exec b c' kont)
  | Alt a b =>
      match exec a c kont with
      | Some res => Some res
      | None => exec b c kont
      end
  | Many k => many k (seen c) (rest c) (fun sn rs => kont (Cfg sn rs (caps c)))
  | Group n r' =>
      exec r' c (fun c' =>
        kont (Cfg (seen c') (rest c') ((n, consumed c c') :: caps c')))
  | NotAfter w => if starts_with (rev w) (seen c) then None else kont c
  | WordB =>
      if xorb (head_is_word (seen c)) (head_is_word (rest c))
      then kont c else None
  end.

(** A match object: [start()], [end()], [group(0)] and the numbered groups. *)
Record found : Type := Found {
  m_start : nat;
  m_end : nat;
  m_text : text;
  m_caps : list (nat * text)
}.

Fixpoint lookup (n : nat) (cs : list (nat * text)) : option text :=
  match cs with
  | [] => None
  | (k, v) :: cs' => if Nat.eqb k n then Some v else lookup n cs'
  end.

(** [m.group(n)]; every group read by the scripts takes part in the match. *)
Definition group (n : nat) (m : found) : text :=
  match lookup n (m_caps m) with
  | Some v => v
  | None => []
  end.

(** The attempt at one position, with [sn] the text before it. *)
Definition match_here (r : re) (sn rs : text) : option found :=
  match exec r (Cfg sn rs []) Some with
  | None => None
  | Some c' =>
      let c := Cfg sn rs [] in
      Some (Found (List.length sn) (List.length (seen c')) (consumed c c') (caps c'))
  end.

(** [re.match(r, s)] *)
Definition match_ (r : re) (s : text) : option found := match_here r [] s.

(** The left-to-right scan shared by [finditer], [search], [sub], [subn]:
    the text is cut into the matches found and the characters between them.
    [skip] counts the characters of the current match still to be passed. *)
Inductive piece : Type :=
| Plain (c : ascii)
| Hit (m : found).

Fixpoint scan (r : re) (sn rs : text) (skip : nat) : list piece :=
  match skip with
  | S n =>
      match rs with
      | [] => []
      | x :: rs' => scan r (x :: sn) rs' n
      end
  | O =>
      match match_here r sn rs with
      | Some m =>
          Hit m ::
          match rs with
          | [] => []
          | x :: rs' =>
              match List.length (m_text m) with
              | O => Plain x :: scan r (x :: sn) rs' 0
              | S n => scan r (x :: sn) rs' n
              end
          end
      | None =>
          match rs with
          | [] => []
          | x :: rs' => Plain x :: scan r (x :: sn) rs' 0
          end
      end
  end.

Definition pieces (r : re) (s : text) : list piece := scan r [] s 0.

Fixpoint hits (ps : list piece) : list found :=
  match ps with
  | [] => []
  | Plain _ :: ps' => hits ps'
  | Hit m :: ps' => m :: hits ps'
  end.

(** [list(re.finditer(r, s))] *)
Definition finditer (r : re) (s : text) : list found := hits (pieces r s).

(** [re.search(r, s)] *)
Definition search (r : re) (s : text) : option found := hd_error (finditer r s).

Definition render (repl : found -> text) (p : piece) : text :=
  match p with
  | Plain c => [c]
  | Hit m => repl m
  end.

(** [re.sub(r, repl, s)] with [repl] a function of the match. *)
Definition sub (r : re) (repl : found -> text) (s : text) : text :=
  concat (map (render repl) (pieces r s)).

(** [re.subn(r, repl, s)] *)
Definition subn (r : re) (repl : found -> text) (s : text) : text * nat :=
  (sub r repl s, List.length (finditer r s)).

(** [re.sub(r, repl, s, count=1)]: only the first match is replaced. *)
Fixpoint render_first (repl : found -> text) (ps : list piece) : text :=
  match ps with
  | [] => []
  | Plain c :: ps' => c :: render_first repl ps'
  | Hit m :: ps' => repl m ++ concat (map (render m_text) ps')
  end.

Definition sub1 (r : re) (repl : found -> text) (s : text) : text :=
  render_first repl (pieces r s).

End Re.

Import Re.

(** ** Effects: what a fixer does to its file

    Each fixer reads one file and either leaves it alone or overwrites it
    with new content.  [outcome] is that decision; [world] threads the file
    contents and the log of [open(path, 'w')] writes. *)

Inductive outcome (A : Type) : Type :=
| NoWrite
| Write (new_content : A).

Arguments NoWrite {A}.
Arguments Write {A} new_content.

(** Indexing a list out of range raises; nothing in the scripts' fixers
    catches it. *)
Inductive result (A : Type) : Type :=
| Ok (a : A)
| IndexError.

Arguments Ok {A} a.
Arguments IndexError {A}.

Record world : Type := World {
  files : list (text * text);       (* path and content, latest first *)
  writes : list text                (* paths written, latest first *)
}.

Fixpoint read_file (path : text) (fs : list (text * text)) : option text :=
  match fs with
  | [] => None
  | (p, c) :: fs' => if text_eqb p path then Some c else read_file path fs'
  end.

(** Run a fixer on the file at [path]: read, decide, write if told to. *)
Definition run_fixer (fixer : text -> outcome text) (path : text) (w : world)
  : world :=
  match read_file path (files w) with
  | None => w
  | Some content =>
      match fixer content with
      | NoWrite => w
      | Write c => World ((path, c) :: files w) (path :: writes w)
      end
  end.

(** ** fix-all-tenant-nulls.py *)

Module FixAll.

(** [async \w+\([^{]*@CurrentUser\(\) user: IUser[^{]*\)\s*(?::\s*Promise<[^>]+>)?\s*\{],
    in one capturing group. *)
Definition method_pattern : re :=
  Group 1 (seqs [
    lit (str "async "); plus CWord; lit (str "(");
    Many (CNot "{"%char);
    lit (str "@CurrentUser() user: IUser");
    Many (CNot "{"%char);
    lit (str ")"); Many CSpace;
    opt (seqs [lit (str ":"); Many CSpace; lit (str "Promise<");
               plus (CNot ">"%char); lit (str ">")]);
    Many CSpace; lit (str "{")]).

(** The body of [for match in reversed(methods_found)]. *)
Definition insert_guard (content : text) (m : found) : text :=
  let method_start_pos := m_end m in
  let next_100_chars := slice method_start_pos (method_start_pos + 200) content in
  if contains guard_test next_100_chars || contains guard_binding next_100_chars
  then content
  else insert_at method_start_pos null_check content.

Definition insert_guards (content : text) (methods_found : list found) : text :=
  fold_left insert_guard (rev methods_found) content.

Definition fix_controller_file (content : text) : outcome text :=
  let methods_found := finditer method_pattern content in
  match methods_found with
  | [] => NoWrite
  | _ :: _ =>
      let content := insert_guards content methods_found in
      let fixed_content := Rewriter.rewrite content in
      Write fixed_content
  end.

(** [tenantId!:\s*string;] and [tenantId:\s*string;] *)
Definition dto_bang : re :=
  seqs [lit (str "tenantId!:"); Many CSpace; lit (str "string;")].
Definition dto_plain : re :=
  seqs [lit (str "tenantId:"); Many CSpace; lit (str "string;")].
Definition dto_optional : text := str "tenantId?: string | null;".

Definition fix_dto_file (content : text) : outcome text :=
  let original := content in
  let content := sub dto_bang (fun _ => dto_optional) content in
  let content := sub dto_plain (fun _ => dto_optional) content in
  if text_eqb content original then NoWrite else Write content.

Definition fix_types_file (content : text) : outcome text :=
  let original := content in
  let content := sub dto_plain (fun _ => dto_optional) content in
  let content := sub dto_bang (fun _ => dto_optional) content in
  if text_eqb content original then NoWrite else Write content.

End FixAll.

(** ** fix-reconciliation-nulls.py *)

Module Recon.

(** [(async \w+\([^)]*@CurrentUser\(\) user: IUser[^)]*\)[^{]*\{)\s*(this\.logger\.(log|debug|warn)\()] *)
Definition method_header : re :=
  seqs [lit (str "async "); plus CWord; lit (str "(");
        Many (CNot ")"%char);
        lit (str "@CurrentUser() user: IUser");
        Many (CNot ")"%char);
        lit (str ")"); Many (CNot "{"%char); lit (str "{")].

Definition logger_kind : re :=
  Alt (lit (str "log")) (Alt (lit (str "debug")) (lit (str "warn"))).

Definition logger_call : re :=
  seqs [lit (str "this.logger."); Group 3 logger_kind; lit (str "(")].

Definition method_pattern : re :=
  seqs [Group 1 method_header; Many CSpace; Group 2 logger_call].

(** The text put between the method header and the logger call. *)
Definition guard_text : text :=
  nl :: guard_if_line ++ nl :: guard_throw_line ++ nl :: guard_close_line
     ++ nl :: guard_bind_line ++ nl :: nl :: str "    ".

Definition add_null_check (m : found) : text :=
  let method_start := group 1 m in
  let logger_call := group 2 m in
  method_start ++ guard_text ++ logger_call.

(** "Apply the transformation": [re.sub(method_pattern, add_null_check, content)]. *)
Definition transformation (content : text) : text :=
  sub method_pattern add_null_check content.

Definition fix_reconciliation_controller (content : text) : outcome text :=
  let fixed_content := transformation content in
  let fixed_content := ReconRewriter.rewrite fixed_content in
  Write fixed_content.

End Recon.

(** ** scripts/fix-remaining-tenant-id.py *)

Module RemainingTenantId.

Definition quote : cls := COneOf ["'"%char; dquote].

(** [from ['\"].*user\.entity['\"];], the tail of the three import patterns. *)
Definition from_user_entity : list re :=
  [lit (str "from "); One quote; Many CDot; lit (str "user.entity");
   One quote; lit (str ";")].

(** [user_import_patterns] *)
Definition user_import_patterns : list re :=
  [Group 1 (seqs (lit (str "import type { IUser } ") :: from_user_entity));
   Group 1 (seqs (lit (str "import { IUser } ") :: from_user_entity));
   Group 1 (seqs from_user_entity)].

(** "Determine the correct path based on file location" (lines 59-63). *)
Definition relative_path (filepath : text) : text :=
  if contains (str "/api/admin/") filepath
  then str "../../auth/utils/tenant-assertions"
  else if contains (str "/websocket/") filepath
  then str "../api/auth/utils/tenant-assertions"
  else str "../auth/utils/tenant-assertions".

Definition import_line (filepath : text) : text :=
  nl :: str "import { getTenantId } from '" ++ relative_path filepath ++ str "';".

(** [for pattern in user_import_patterns: if re.search(...): ...; break];
    the result is the new content and the [modified] flag. *)
Fixpoint add_import (filepath : text) (patterns : list re) (content : text)
  : text * bool :=
  match patterns with
  | [] => (content, false)
  | pattern :: more =>
      match search pattern content with
      | Some _ =>
          (sub1 pattern (fun m => group 1 m ++ import_line filepath) content,
           true)
      | None => add_import filepath more content
      end
  end.

(** [if \(!user\.tenantId\) \{\s*throw new Error\([^)]+SUPER_ADMIN[^)]+\);\s*\}] *)
Definition manual_check : re :=
  seqs [lit (str "if (!user.tenantId) {"); Many CSpace;
        lit (str "throw new Error("); plus (CNot ")"%char);
        lit (str "SUPER_ADMIN"); plus (CNot ")"%char);
        lit (str ");"); Many CSpace; lit (str "}")].

Definition replacement : text :=
  str "// Extract and validate tenantId - TenantGuard ensures it exists"
  ++ nl :: str "    const tenantId = getTenantId(user);".

(** [fix_file] once the file is known to exist. *)
Definition fix_file (filepath content : text) : outcome text :=
  let original_content := content in
  let '(content, modified) :=
    if negb (contains (str "getTenantId") content)
    then add_import filepath user_import_patterns content
    else (content, false) in
  let '(new_content, count) := subn manual_check (fun _ => replacement) content in
  let '(content, modified) :=
    if 0 <? count then (new_content, true) else (content, modified) in
  if modified && negb (text_eqb content original_content)
  then Write content
  else NoWrite.

End RemainingTenantId.

(** ** scripts/add-missing-tenant-id.py

    The file is held as the list [f.readlines()] returns: one entry per line,
    each with its line end. *)

Module AddMissing.

(** [\s*(async\s+)?\w+\s*\(] *)
Definition declaration_pattern : re :=
  seqs [Many CSpace; opt (Group 1 (seqs [lit (str "async"); plus CSpace]));
        plus CWord; Many CSpace; lit (str "(")].

Definition is_declaration (line : text) : bool :=
  match match_ declaration_pattern line with
  | Some _ => true
  | None => false
  end.

(** [for j in range(i, min(len(lines), i + 20)): if '{' in lines[j]: ...]:
    the first index among the [n] from [j] on whose line has a brace. *)
Fixpoint first_brace (lines : list text) (j n : nat) : option nat :=
  match n with
  | O => None
  | S n' =>
      match nth_error lines j with
      | None => None
      | Some line =>
          if has_char "{"%char line then Some j
          else first_brace lines (S j) n'
      end
  end.

Definition brace_after (lines : list text) (i : nat) : option nat :=
  first_brace lines i (Nat.min (List.length lines) (i + 20) - i).

(** The backward loop: [n] iterations from index [i] down. *)
Fixpoint scan_back (lines : list text) (i n : nat) : result (option nat) :=
  match n with
  | O => Ok None
  | S n' =>
      match nth_error lines i with
      | None => IndexError
      | Some line =>
          if is_declaration line then
            match brace_after lines i with
            | Some j => Ok (Some (j + 1))
            | None => scan_back lines (i - 1) n'
            end
          else scan_back lines (i - 1) n'
      end
  end.

(** [range(error_line - 1, max(0, error_line - 100), -1)] runs from
    [error_line - 1] down to [max(0, error_line - 100) + 1]. *)
Definition find_method_start (lines : list text) (error_line : nat)
  : result (option nat) :=
  scan_back lines (error_line - 1) ((error_line - 1) - (error_line - 100)).

(** [lines[a:b]] and [lines.insert(k, x)] *)
Definition lines_slice (a b : nat) (lines : list text) : list text :=
  firstn (b - a) (skipn a lines).

Definition list_insert (k : nat) (x : text) (lines : list text) : list text :=
  firstn k lines ++ x :: skipn k lines.

Definition declaration_text : text := str "const tenantId = getTenantId(user);".

(** One iteration of [for error_line in sorted(error_lines)] on the pair
    [(lines, methods_fixed)]. *)
Definition fix_step (st : list text * list nat) (error_line : nat)
  : result (list text * list nat) :=
  let '(lines, methods_fixed) := st in
  match find_method_start lines error_line with
  | IndexError => IndexError
  | Ok None => Ok st
  | Ok (Some method_start) =>
      if negb (method_start =? 0) && negb (existsb (Nat.eqb method_start) methods_fixed)
      then
        let method_block :=
          join (lines_slice method_start
                  (Nat.min (method_start + 50) (List.length lines)) lines) in
        if negb (contains (str "const tenantId") method_block) then
          match nth_error lines method_start with
          | None => IndexError
          | Some first =>
              let indent := List.length first - List.length (lstrip first) in
              let declaration :=
                repeat " "%char indent ++ declaration_text ++ [nl; nl] in
              Ok (list_insert method_start declaration lines,
                  method_start :: methods_fixed)
          end
        else Ok st
      else Ok st
  end.

Fixpoint fix_loop (st : list text * list nat) (error_lines : list nat)
  : result (list text * list nat) :=
  match error_lines with
  | [] => Ok st
  | error_line :: more =>
      match fix_step st error_line with
      | IndexError => IndexError
      | Ok st' => fix_loop st' more
      end
  end.

(** [sorted(error_lines)] *)
Fixpoint insert_sorted (x : nat) (l : list nat) : list nat :=
  match l with
  | [] => [x]
  | y :: l' => if x <=? y then x :: l else y :: insert_sorted x l'
  end.

Definition sorted (l : list nat) : list nat := fold_right insert_sorted [] l.

Definition lines_eqb (a b : list text) : bool :=
  if list_eq_dec (list_eq_dec ascii_dec) a b then true else false.

Definition fix_file (lines : list text) (error_lines : list nat)
  : result (outcome (list text)) :=
  let original_lines := lines in
  match fix_loop (lines, []) (sorted error_lines) with
  | IndexError => IndexError
  | Ok (lines, _) =>
      if negb (lines_eqb lines original_lines)
      then Ok (Write lines)
      else Ok NoWrite
  end.

End AddMissing.

(** ** fix-remaining-nulls.py *)

Module RemainingNulls.

(** Strategy 1 uses the method pattern of fix-all-tenant-nulls.py. *)
Definition method_pattern : re := FixAll.method_pattern.

Definition insert_guard (content : text) (m : found) : text :=
  let method_start_pos := m_end m in
  let next_200_chars := slice method_start_pos (method_start_pos + 300) content in
  if contains guard_test next_200_chars
  then content
  else insert_at method_start_pos null_check content.

Definition insert_guards (content : text) (methods_found : list found) : text :=
  fold_left insert_guard (rev methods_found) content.

(** [tenantId!:\s*string;] and [(?<!tenantId\?:)(\s+)tenantId:\s*string;] *)
Definition dto_bang : re := FixAll.dto_bang.
Definition dto_spaced : re :=
  seqs [NotAfter (str "tenantId?:"); Group 1 (plus CSpace);
        lit (str "tenantId:"); Many CSpace; lit (str "string;")].
Definition dto_optional : text := str "tenantId?: string | null;".

Definition make_optional (content : text) : text :=
  let content := sub dto_bang (fun _ => dto_optional) content in
  sub dto_spaced (fun m => group 1 m ++ dto_optional) content.

(** [((?:async\s+)?(?:public\s+|private\s+|protected\s+)?(?:\w+)\s*\([^)]*\btenantId:\s*string[^)]*\)(?:\s*:\s*[^{]+)?\s*\{)] *)
Definition func_pattern : re :=
  Group 1 (seqs [
    opt (seqs [lit (str "async"); plus CSpace]);
    opt (Alt (seqs [lit (str "public"); plus CSpace])
        (Alt (seqs [lit (str "private"); plus CSpace])
             (seqs [lit (str "protected"); plus CSpace])));
    plus CWord; Many CSpace; lit (str "(");
    Many (CNot ")"%char); WordB; lit (str "tenantId:"); Many CSpace;
    lit (str "string"); Many (CNot ")"%char); lit (str ")");
    opt (seqs [Many CSpace; lit (str ":"); Many CSpace; plus (CNot "{"%char)]);
    Many CSpace; lit (str "{")]).

Definition param_test : text := str "!tenantId".

Definition param_check : text :=
  nl :: str "    if (!tenantId) {" ++ nl ::
  str "      throw new Error('tenantId is required');" ++ nl ::
  str "    }" ++ [nl].

(** The body of [for match in reversed(funcs_found)]. *)
Definition insert_param_check (content : text) (m : found) : text :=
  let func_start_pos := m_end m in
  let next_100_chars := slice func_start_pos (func_start_pos + 200) content in
  if contains param_test next_100_chars
  then content
  else insert_at func_start_pos param_check content.

Definition insert_param_checks (content : text) (funcs_found : list found) : text :=
  fold_left insert_param_check (rev funcs_found) content.

Definition is_service_path (file_path : text) : bool :=
  contains (str "/services/") file_path ||
  contains (str "/repositories/") file_path ||
  contains (str "/handlers/") file_path.

(** Strategy 5 alone: the parameter guards of service-layer files. *)
Definition strategy5 (file_path content : text) : text :=
  if is_service_path file_path
  then insert_param_checks content (finditer func_pattern content)
  else content.

(** The content [fix_any_file] arrives at, before the write decision. *)
Definition fixed_content (file_path content : text) : text :=
  let methods_found := finditer method_pattern content in
  let content := insert_guards content methods_found in
  let content :=
    match methods_found with
    | [] => content
    | _ :: _ => Rewriter.rewrite content
    end in
  let content :=
    if contains (str "/dto/") file_path || ends_with (str ".dto.ts") file_path
    then make_optional content else content in
  let content :=
    if contains (str "/entities/") file_path
    then make_optional content else content in
  strategy5 file_path content.

Definition fix_any_file (file_path content : text) : outcome text :=
  let original_content := content in
  let content := fixed_content file_path content in
  if negb (text_eqb content original_content)
  then Write content
  else NoWrite.

End RemainingNulls.

(** ** The compiler output read by the two scripts under [scripts/]

    [get_files_with_errors] and [get_errors] run [npx tsc --noEmit] and parse
    its diagnostics.  The run itself is outside the embedding: the two
    functions are modelled from the captured [stdout] and [stderr] on. *)

Module TscOutput.

(** The line boundaries of [str.splitlines], code points < 256. *)
Definition is_linebreak (c : ascii) : bool :=
  let n := nat_of_ascii c in
  in_range 10 13 n || in_range 28 30 n || (n =? 133).

(** [s.splitlines()]: [cur] holds the current line, latest character first;
    a carriage return followed by a newline is one boundary, and a final
    boundary opens no empty line. *)
Fixpoint splitlines_from (cur s : text) : list text :=
  match s with
  | [] =>
      match cur with
      | [] => []
      | _ :: _ => [rev cur]
      end
  | c :: s' =>
      if is_linebreak c then
        rev cur ::
        (if Ascii.eqb c "013"%char then
           match s' with
           | c' :: s'' =>
               if Ascii.eqb c' nl then splitlines_from [] s''
               else splitlines_from [] s'
           | [] => splitlines_from [] s'
           end
         else splitlines_from [] s')
      else splitlines_from (c :: cur) s'
  end.

Definition splitlines (s : text) : list text := splitlines_from [] s.

(** [\d] of a [str] pattern, code points < 256. *)
Definition digit : cls := COneOf (str "0123456789").

Definition diagnostic : text :=
  str "): error TS2304: Cannot find name 'tenantId'".

(** [\(\d+,\d+\): error TS2304: Cannot find name 'tenantId'], what follows
    [^(.+?)] in [get_files_with_errors]. *)
Definition position_tail : re :=
  seqs [lit (str "("); plus digit; lit (str ","); plus digit; lit diagnostic].

(** [\((\d+),\d+\): error TS2304: Cannot find name 'tenantId'], what follows
    [^(.+?)] in [get_errors]. *)
Definition line_tail : re :=
  seqs [lit (str "("); Group 2 (plus digit); lit (str ","); plus digit;
        lit diagnostic].

(** What the two tails consume: an opening parenthesis, the line digits, a
    comma, the column digits and the diagnostic text. *)
Definition position_text (d d2 : text) : text :=
  str "(" ++ d ++ str "," ++ d2 ++ diagnostic.

(** A non-empty run of decimal digits. *)
Definition digits (d : text) : Prop :=
  d <> [] /\ forallb (cls_ok digit) d = true.

(** The lazy group [(.+?)] opened at the start of the line, once its first
    character is taken: [tail] is tried before any further character is. *)
Fixpoint lazy_dots (tail : re) (sn rs : text) : option cfg :=
  match exec tail (Cfg sn rs [(1, rev sn)]) Some with
  | Some c => Some c
  | None =>
      match rs with
      | [] => None
      | x :: rs' =>
          if cls_ok CDot x then lazy_dots tail (x :: sn) rs' else None
      end
  end.

(** [re.match(r'^(.+?)' + tail, line)] *)
Definition match_line (tail : re) (line : text) : option found :=
  match line with
  | [] => None
  | x :: rs =>
      if cls_ok CDot x then
        match lazy_dots tail [x] rs with
        | Some c =>
            Some (Found 0 (List.length (seen c)) (rev (seen c)) (caps c))
        | None => None
        end
      else None
  end.

(** Python compares strings code point by code point. *)
Fixpoint text_leb (a b : text) : bool :=
  match a, b with
  | [], _ => true
  | _ :: _, [] => false
  | x :: a', y :: b' =>
      if nat_of_ascii x <? nat_of_ascii y then true
      else if nat_of_ascii y <? nat_of_ascii x then false
      else text_leb a' b'
  end.

Definition text_lt (a b : text) : Prop := text_leb b a = false.

Fixpoint insert_text (x : text) (l : list text) : list text :=
  match l with
  | [] => [x]
  | y :: l' => if text_leb x y then x :: l else y :: insert_text x l'
  end.

(** [sorted(files)] *)
Definition sorted_texts (l : list text) : list text :=
  fold_right insert_text [] l.

(** [files.add(x)], the set kept as the list of its distinct members. *)
Definition set_add (x : text) (files : list text) : list text :=
  if existsb (text_eqb x) files then files else files ++ [x].

(** The loop of [get_files_with_errors] (lines 22-26). *)
Fixpoint collect_files (lines files : list text) : list text :=
  match lines with
  | [] => files
  | line :: more =>
      match match_line position_tail line with
      | Some m => collect_files more (set_add (group 1 m) files)
      | None => collect_files more files
      end
  end.

(** [get_files_with_errors], from the captured output on. *)
Definition get_files_with_errors (stdout stderr : text) : list text :=
  sorted_texts (collect_files (splitlines stdout ++ splitlines stderr) []).

(** [int(s)] for a string of decimal digits.  [max_str_digits] is
    [sys.get_int_max_str_digits()], which is 0 or at least 640: when it is
    not 0, a longer string raises [ValueError], here [None]. *)
Definition digit_value (c : ascii) : nat := nat_of_ascii c - 48.

Definition int_of_digits (s : text) : nat :=
  fold_left (fun n c => 10 * n + digit_value c) s 0.

Definition int (max_str_digits : nat) (s : text) : option nat :=
  if (0 <? max_str_digits) && (max_str_digits <? List.length s)
  then None
  else Some (int_of_digits s).

(** [if file not in errors: errors[file] = []] and
    [errors[file].append(line_num)]; the dict keeps its keys in the order of
    their first insertion. *)
Fixpoint add_error (file : text) (line_num : nat)
                   (errors : list (text * list nat)) : list (text * list nat) :=
  match errors with
  | [] => [(file, [line_num])]
  | (f, ns) :: more =>
      if text_eqb f file then (f, ns ++ [line_num]) :: more
      else (f, ns) :: add_error file line_num more
  end.

(** The loop of [get_errors] (lines 20-27); [None] when [int] raises. *)
Fixpoint collect_errors (max_str_digits : nat) (lines : list text)
                        (errors : list (text * list nat))
  : option (list (text * list nat)) :=
  match lines with
  | [] => Some errors
  | line :: more =>
      match match_line line_tail line with
      | Some m =>
          match int max_str_digits (group 2 m) with
          | Some line_num =>
              collect_errors max_str_digits more
                (add_error (group 1 m) line_num errors)
          | None => None
          end
      | None => collect_errors max_str_digits more errors
      end
  end.

(** [get_errors], from the captured output on: [except Exception] turns the
    [ValueError] into the empty dict. *)
Definition get_errors (max_str_digits : nat) (stdout stderr : text)
  : list (text * list nat) :=
  match collect_errors max_str_digits
          (splitlines stdout ++ splitlines stderr) [] with
  | Some errors => errors
  | None => []
  end.

(** [errors.get(file, [])] *)
Fixpoint entry (file : text) (errors : list (text * list nat)) : list nat :=
  match errors with
  | [] => []
  | (f, ns) :: more => if text_eqb f file then ns else entry file more
  end.

(** The line numbers the diagnostics of [lines] give for [file], in the
    order of the lines. *)
Definition line_numbers_of (file : text) (lines : list text) : list nat :=
  flat_map (fun line =>
              match match_line line_tail line with
              | Some m =>
                  if text_eqb (group 1 m) file
                  then [int_of_digits (group 2 m)] else []
              | None => []
              end) lines.

(** No line number of the output is too long for [int]. *)
Definition numbers_fit (max_str_digits : nat) (lines : list text) : Prop :=
  max_str_digits = 0 \/
  forall line m, In line lines -> match_line line_tail line = Some m ->
                 List.length (group 2 m) <= max_str_digits.

(** Every key of the dict holds at least one line number. *)
Definition filled (errors : list (text * list nat)) : Prop :=
  forall f ns, In (f, ns) errors -> ns <> [].

End TscOutput.

(** ** Notions used to state the properties *)

(** A line at index [i] that the boundary locator can use: it has the
    declaration shape and a brace is found from it on. *)
Definition usable_header (lines : list text) (i : nat) : bool :=
  match nth_error lines i with
  | None => false
  | Some line =>
      AddMissing.is_declaration line &&
      match AddMissing.brace_after lines i with
      | Some _ => true
      | None => false
      end
  end.

(** How the reconciliation transformation cuts a file: text it keeps, and
    matches, made of a method header, white space and a logger call. *)
Inductive segment : Type :=
| Kept (t : text)
| Guarded (header space call : text).




Definition logger_calls : list text :=
  [str "this.logger.log("; str "this.logger.debug("; str "this.logger.warn("].

Definition seg_ok (s : segment) : Prop :=
  match s with
  | Kept _ => True
  | Guarded header space call =>
      starts_with (str "async ") header = true /\
      contains (str "@CurrentUser() user: IUser") header = true /\
      ends_with (str "{") header = true /\
      forallb is_space space = true /\
      In call logger_calls
  end.

(** The boundary the specification asks for, by brace-depth tracking: going
    backward from the diagnostic line, the first opening brace that is not
    closed again before that line; the body starts on the next line. *)
Module Spec.

(** One line, read right to left ([cs] is the line reversed): [None] when an
    unclosed opening brace is met, otherwise the number of closing braces
    still to be paired. *)
Fixpoint pair_braces (cs : text) (depth : nat) : option nat :=
  match cs with
  | [] => Some depth
  | c :: cs' =>
      if Ascii.eqb c "}"%char then pair_braces cs' (S depth)
      else if Ascii.eqb c "{"%char then
        match depth with
        | O => None
        | S d => pair_braces cs' d
        end
      else pair_braces cs' depth
  end.

(** [before] holds the lines above the diagnostic line, nearest first, and
    [i] is the index of its head. *)
Fixpoint enclosing_brace (before : list text) (i depth : nat) : option nat :=
  match before with
  | [] => None
  | line :: above =>
      match pair_braces (rev line) depth with
      | None => Some i
      | Some d => enclosing_brace above (i - 1) d
      end
  end.

Definition enclosing_body_start (lines : list text) (error_line : nat)
  : option nat :=
  match enclosing_brace (rev (firstn (error_line - 1) lines)) (error_line - 2) 0 with
  | Some i => Some (i + 1)
  | None => None
  end.

(** The depth of a file in the tree: the number of directories on its path. *)
Definition depth (filepath : text) : nat := count_occ ascii_dec filepath "/"%char.

(** A snapshot with one text inserted at each of the given offsets of the
    snapshot; [pos] is the offset of the head of [s]. *)
Fixpoint weave (ins : text) (offsets : list nat) (pos : nat) (s : text) : text :=
  (if existsb (Nat.eqb pos) offsets then ins else []) ++
  match s with
  | [] => []
  | c :: s' => c :: weave ins offsets (S pos) s'
  end.

End Spec.

(** What a run of the matcher over [r] from configuration [c] to [c'] means:
    the text passed, piece by piece, and the groups recorded on the way. *)
Fixpoint den (r : re) (c c' : cfg) : Prop :=
  match r with
  | Eps => c' = c
  | One k =>
      exists x, rest c = x :: rest c' /\ cls_ok k x = true /\
                seen c' = x :: seen c /\ caps c' = caps c
  | Seq a b => exists m, den a c m /\ den b m c'
  | Alt a b => den a c c' \/ den b c c'
  | Many k =>
      exists w, forallb (cls_ok k) w = true /\ rest c = w ++ rest c' /\
                seen c' = rev w ++ seen c /\ caps c' = caps c
  | Group n r' =>
      exists m, den r' c m /\
                c' = Cfg (seen m) (rest m) ((n, consumed c m) :: caps m)
  | NotAfter w => c' = c /\ starts_with (rev w) (seen c) = false
  | WordB =>
      c' = c /\ xorb (head_is_word (seen c)) (head_is_word (rest c)) = true
  end.

(** Patterns without capturing groups. *)
Fixpoint groupless (r : re) : bool :=
  match r with
  | Seq a b | Alt a b => groupless a && groupless b
  | Group _ _ => false
  | _ => true
  end.

(** The texts the DTO patterns match: a head ([tenantId!:] or [tenantId:]),
    white space, and [string;]. *)
Definition dto_pattern (head : text) : re :=
  seqs [lit head; Many CSpace; lit (str "string;")].

Definition dto_shape (head x : text) : Prop :=
  exists ws, forallb is_space ws = true /\ x = head ++ ws ++ str "string;".

Definition dto_head (head : text) : Prop :=
  head = str "tenantId!:" \/ head = str "tenantId:".

(** Characters other than [?] and [;]. *)
Definition plain_char (c : ascii) : bool :=
  negb (Ascii.eqb c "?"%char) && negb (Ascii.eqb c ";"%char).

(** [x] stands somewhere in [t]. *)
Definition occurs (x t : text) : Prop := exists a b, t = a ++ x ++ b.

(** The original text of a piece of the scan. *)
Definition piece_src (p : piece) : text := render m_text p.

(** ** Concrete files *)

Module Fixtures.

Definition file_of (ls : list string) : text := join_nl (map str ls).
Definition lines_of (ls : list string) : list text :=
  map (fun s => str s ++ [nl]) ls.

(** A controller whose method reaches the tenant through a nested [user]. *)
Definition nested_user_controller : text := file_of [
  "class InvoiceController {";
  "  async getInvoice(@CurrentUser() user: IUser): Promise<Invoice> {";
  "    return this.invoices.find(session.user.user.tenantId);";
  "  }";
  "}"]%string.

(** A controller that already carries the guard and the binding. *)
Definition guarded_controller : text := file_of [
  "class InvoiceController {";
  "  async getInvoice(@CurrentUser() user: IUser) {";
  "    if (!user.tenantId) {";
  "      throw new Error('no tenant');";
  "    }";
  "    const tenantId = user.tenantId;";
  "    return this.invoices.find(tenantId);";
  "  }";
  "}"]%string.

Definition controller_path : text := str "src/api/billing/invoice.controller.ts".

(** Three methods with one diagnostic each, on lines 3, 6 and 9. *)
Definition three_methods : list text := lines_of [
  "class ReportService {";
  "  daily(user: IUser) {";
  "    return this.repo.daily(tenantId);";
  "  }";
  "  weekly(user: IUser) {";
  "    return this.repo.weekly(tenantId);";
  "  }";
  "  monthly(user: IUser) {";
  "    return this.repo.monthly(tenantId);";
  "  }";
  "}"]%string.

(** An outer method and an inner closure, diagnostics on lines 3 and 5. *)
Definition nested_closure : list text := lines_of [
  "class C {";
  "  outer() {";
  "    const a = tenantId;";
  "    items.forEach((x) => {";
  "      const b = tenantId;";
  "    });";
  "  }";
  "}"]%string.

(** The nearest declaration-shaped line (index 2) opens no brace. *)
Definition call_without_brace : list text := lines_of [
  "class A {";
  "  foo() {";
  "    bar(";
  "      tenantId"]%string.

(** No declaration-shaped line above the diagnostic line 2. *)
Definition header_on_error_line : list text := lines_of [
  "";
  "run(tenantId, {";
  "});"]%string.

(** A diagnostic in a field initialiser: no method above it. *)
Definition field_only : list text := lines_of [
  "class A {";
  "  tenant = tenantId;";
  "}"]%string.





Definition service_path : text := str "src/database/services/audit-log.service.ts".

(** A service with two short methods that take [tenantId: string]. *)
Definition short_service : text := file_of [
  "export class AuditLogService {";
  "  async count(tenantId: string): Promise<number> {";
  "    return this.repo.count({ tenantId });";
  "  }";
  "";
  "  async list(tenantId: string): Promise<AuditLog[]> {";
  "    return this.repo.find({ tenantId });";
  "  }";
  "}"]%string.


(** A controller that binds the tenant without testing it, and what one
    run and two runs of [fix_controller_file] make of it. *)
Definition bound_controller : text := file_of [
  "class InvoiceController {";
  "  async list(@CurrentUser() user: IUser) {";
  "    const tenantId = user.tenantId;";
  "    return this.invoices.list(tenantId);";
  "  }";
  "}"]%string.

Definition bound_once : text := file_of [
  "class InvoiceController {";
  "  async list(@CurrentUser() user: IUser) {";
  "    const tenantId = tenantId;";
  "    return this.invoices.list(tenantId);";
  "  }";
  "}"]%string.

Definition bound_twice : text := file_of [
  "class InvoiceController {";
  "  async list(@CurrentUser() user: IUser) {";
  "    if (!user.tenantId) {";
  "      throw new Error('This operation requires a tenant. SUPER_ADMIN users cannot access tenant-specific data.');";
  "    }";
  "    const tenantId = user.tenantId;";
  "";
  "    const tenantId = tenantId;";
  "    return this.invoices.list(tenantId);";
  "  }";
  "}"]%string.

(** [nested_user_controller] after one run and after two runs of
    [fix_controller_file]. *)
Definition nested_user_once : text := file_of [
  "class InvoiceController {";
  "  async getInvoice(@CurrentUser() user: IUser): Promise<Invoice> {";
  "    if (!user.tenantId) {";
  "      throw new Error('This operation requires a tenant. SUPER_ADMIN users cannot access tenant-specific data.');";
  "    }";
  "    const tenantId = user.tenantId;";
  "";
  "    return this.invoices.find(session.user.tenantId);";
  "  }";
  "}"]%string.

Definition nested_user_twice : text := file_of [
  "class InvoiceController {";
  "  async getInvoice(@CurrentUser() user: IUser): Promise<Invoice> {";
  "    if (!user.tenantId) {";
  "      throw new Error('This operation requires a tenant. SUPER_ADMIN users cannot access tenant-specific data.');";
  "    }";
  "    const tenantId = user.tenantId;";
  "";
  "    return this.invoices.find(session.tenantId);";
  "  }";
  "}"]%string.

(** [short_service] as [fix_any_file] leaves it: only [list] is guarded. *)
Definition short_service_fixed : text := file_of [
  "export class AuditLogService {";
  "  async count(tenantId: string): Promise<number> {";
  "    return this.repo.count({ tenantId });";
  "  }";
  "";
  "  async list(tenantId: string): Promise<AuditLog[]> {";
  "    if (!tenantId) {";
  "      throw new Error('tenantId is required');";
  "    }";
  "";
  "    return this.repo.find({ tenantId });";
  "  }";
  "}"]%string.

(** A method whose body starts with a logger call, before and after the
    reconciliation transformation. *)
Definition logged_method : text := file_of [
  "  async list(@CurrentUser() user: IUser) {";
  "    this.logger.debug('list');";
  "  }"]%string.

Definition logged_method_guarded : text := file_of [
  "  async list(@CurrentUser() user: IUser) {";
  "    if (!user.tenantId) {";
  "      throw new Error('This operation requires a tenant. SUPER_ADMIN users cannot access tenant-specific data.');";
  "    }";
  "    const tenantId = user.tenantId;";
  "";
  "    this.logger.debug('list');";
  "  }"]%string.





Definition declaration_line : text :=
  str "    const tenantId = getTenantId(user);" ++ [nl; nl].

End Fixtures.

(** [l'] is [l] with entries that satisfy [P] put in, nothing taken out and
    nothing moved. *)
Inductive grown (P : text -> Prop) : list text -> list text -> Prop :=
| grown_nil : grown P [] []
| grown_keep : forall x l l', grown P l l' -> grown P (x :: l) (x :: l')
| grown_add : forall y l l', P y -> grown P l l' -> grown P l (y :: l').

(** The entries add-missing-tenant-id.py inserts: the declaration behind
    some indentation, with its two line ends. *)
Definition declaration_entry (y : text) : Prop :=
  exists indent, y = repeat " "%char indent ++ AddMissing.declaration_text ++ [nl; nl].

(** ** More concrete files *)

Module Samples.

(** A call at the end of a file whose object literal opens on the last
    line; the diagnostic is on line 2. *)
Definition call_at_end : list text := Fixtures.lines_of [
  "const app = create();";
  "bootstrap(tenantId,";
  "  { retries: 3 });"]%string.

Definition dto_file : text := Fixtures.file_of [
  "export class PaymentDto {";
  "  tenantId!: string;";
  "  amount: number;";
  "}"]%string.

Definition dto_file_fixed : text := Fixtures.file_of [
  "export class PaymentDto {";
  "  tenantId?: string | null;";
  "  amount: number;";
  "}"]%string.

Definition dto_path : text := str "src/database/dto/payment.dto.ts".

(** A match object ending at offset 64, as [finditer] gives for the method
    of [Fixtures.bound_controller]. *)
Definition some_match : found := Found 26 64 [] [].

(** A controller with the manual check of the earlier scripts and the
    import of the user entity. *)
Definition checked_controller : text := Fixtures.file_of [
  "import type { IUser } from '../auth/entities/user.entity';";
  "";
  "class InvoiceController {";
  "  async list(@CurrentUser() user: IUser) {";
  "    if (!user.tenantId) {";
  "      throw new Error('This operation requires a tenant. SUPER_ADMIN users cannot access tenant-specific data.');";
  "    }";
  "    const tenantId = user.tenantId;";
  "    return this.invoices.list(tenantId);";
  "  }";
  "}"]%string.

Definition checked_controller_fixed : text := Fixtures.file_of [
  "import type { IUser } from '../auth/entities/user.entity';";
  "import { getTenantId } from '../auth/utils/tenant-assertions';";
  "";
  "class InvoiceController {";
  "  async list(@CurrentUser() user: IUser) {";
  "    // Extract and validate tenantId - TenantGuard ensures it exists";
  "    const tenantId = getTenantId(user);";
  "    const tenantId = user.tenantId;";
  "    return this.invoices.list(tenantId);";
  "  }";
  "}"]%string.

(** A diagnostic of the compiler, and the match object of its line. *)
Definition diagnostic_line : text :=
  str "src/api/billing/invoice.controller.ts(42,17): error TS2304: Cannot find name 'tenantId'.".

Definition diagnostic_match : found :=
  Found 0 87
    (str "src/api/billing/invoice.controller.ts(42,17): error TS2304: Cannot find name 'tenantId'")
    [(2, str "42"); (1, str "src/api/billing/invoice.controller.ts")].

(** The output of a compiler run with three diagnostics in two files. *)
Definition tsc_stdout : text := concat (Fixtures.lines_of [
  "src/api/staff/leave.controller.ts(18,9): error TS2304: Cannot find name 'tenantId'.";
  "src/api/billing/invoice.controller.ts(42,17): error TS2304: Cannot find name 'tenantId'.";
  "src/api/staff/leave.controller.ts(7,3): error TS2304: Cannot find name 'tenantId'.";
  "";
  "Found 3 errors in 2 files."]%string).

(** An output whose second diagnostic carries a line number of 4301
    digits. *)
Definition long_number_line : text :=
  str "src/b.ts(" ++ repeat "1"%char 4301
  ++ str ",1): error TS2304: Cannot find name 'tenantId'.".

Definition long_number_stdout : text :=
  diagnostic_line ++ nl :: long_number_line ++ [nl].

Definition long_number_match : found :=
  Found 0 4356
    (str "src/b.ts(" ++ repeat "1"%char 4301
     ++ str ",1): error TS2304: Cannot find name 'tenantId'")
    [(2, repeat "1"%char 4301); (1, str "src/b.ts")].

End Samples.

(** * Properties *)

(** ** Substrings *)

Section StringFacts.

Lemma contains_unfold : forall needle hay,
  contains needle hay =
  starts_with needle hay ||
  match hay with
  | [] => false
  | _ :: hay' => contains needle hay'
  end.
Proof. intros needle hay. destruct hay; reflexivity. Qed.

Lemma starts_with_app : forall p s, starts_with p (p ++ s) = true.
Proof.
  induction p as [|x p IH]; intros s; simpl; [reflexivity|].
  now rewrite Ascii.eqb_refl, IH.
Qed.

Lemma ends_with_app : forall p s, ends_with p (s ++ p) = true.
Proof.
  intros p s. unfold ends_with. rewrite rev_app_distr. apply starts_with_app.
Qed.

Lemma starts_with_more : forall p a b,
  starts_with p a = true -> starts_with p (a ++ b) = true.
Proof.
  induction p as [|x p IH]; intros a b H; [reflexivity|].
  destruct a as [|y a]; [discriminate|]. simpl in H |- *.
  apply andb_prop in H. destruct H as [-> H]. now rewrite (IH _ _ H).
Qed.

Lemma contains_more : forall needle a b,
  contains needle a = true -> contains needle (a ++ b) = true.
Proof.
  induction a as [|y a IH]; intros b H.
  - rewrite contains_unfold in H. rewrite orb_false_r in H.
    rewrite contains_unfold. now rewrite (starts_with_more _ _ b H).
  - rewrite contains_unfold in H. cbn [app]. rewrite contains_unfold.
    apply orb_prop in H. destruct H as [H|H].
    + change (y :: a ++ b) with ((y :: a) ++ b).
      now rewrite (starts_with_more _ _ b H).
    + rewrite (IH b H). apply orb_true_r.
Qed.

Lemma contains_inside : forall needle a b,
  contains needle (a ++ needle ++ b) = true.
Proof.
  induction a as [|y a IH]; intros b.
  - cbn [app]. rewrite contains_unfold. now rewrite starts_with_app.
  - cbn [app]. rewrite contains_unfold. rewrite IH. apply orb_true_r.
Qed.

Lemma text_eqb_false : forall a b, text_eqb a b = false -> a <> b.
Proof.
  intros a b H. unfold text_eqb in H.
  now destruct (list_eq_dec ascii_dec a b).
Qed.

End StringFacts.

(** ** The per-line rewriting loops *)

Section RewriterFacts.










Lemma recon_run_length : forall lines st,
  List.length (ReconRewriter.run st lines) = List.length lines.
Proof.
  induction lines as [|l ls IH]; intros st; simpl; [reflexivity|].
  destruct (ReconRewriter.step st l) as [st' out]. simpl. now rewrite IH.
Qed.











End RewriterFacts.







(** ** The boundary locator of add-missing-tenant-id.py *)

Section LocatorFacts.

Variable lines : list text.

Lemma first_brace_some : forall n j k,
  AddMissing.first_brace lines j n = Some k ->
  j <= k < j + n /\
  (exists line, nth_error lines k = Some line /\ has_char "{"%char line = true) /\
  (forall j', j <= j' < k ->
     forall line, nth_error lines j' = Some line -> has_char "{"%char line = false).
Proof.
  induction n as [|n IH]; intros j k H; simpl in H; [discriminate|].
  destruct (nth_error lines j) as [line|] eqn:E; [|discriminate].
  destruct (has_char "{"%char line) eqn:B.
  - injection H as <-. split; [lia|]. split.
    + exists line. now split.
    + intros j' Hj'. lia.
  - apply IH in H. destruct H as (Hr & Hk & Hfirst).
    split; [lia|]. split; [exact Hk|].
    intros j' Hj' l Hl.
    destruct (Nat.eq_dec j' j) as [->|Hne].
    + rewrite E in Hl. injection Hl as <-. exact B.
    + apply (Hfirst j'); [lia|exact Hl].
Qed.

Lemma usable_header_true : forall h,
  usable_header lines h = true ->
  exists line j,
    nth_error lines h = Some line /\
    AddMissing.is_declaration line = true /\
    AddMissing.brace_after lines h = Some j.
Proof.
  intros h H. unfold usable_header in H.
  destruct (nth_error lines h) as [line|]; [|discriminate].
  apply andb_prop in H. destruct H as [Hd Hb].
  destruct (AddMissing.brace_after lines h) as [j|]; [|discriminate].
  now exists line, j.
Qed.

(** A successful backward scan stops at the nearest usable header. *)
Lemma scan_back_some : forall n i k,
  n <= i ->
  AddMissing.scan_back lines i n = Ok (Some k) ->
  exists h j,
    i - n < h <= i /\
    usable_header lines h = true /\
    AddMissing.brace_after lines h = Some j /\
    k = j + 1 /\
    (forall h', h < h' <= i -> usable_header lines h' = false).
Proof.
  induction n as [|n IH]; intros i k Hn H; simpl in H; [discriminate|].
  destruct (nth_error lines i) as [line|] eqn:E; [|discriminate].
  assert (Hrec : usable_header lines i = false ->
                 AddMissing.scan_back lines (i - 1) n = Ok (Some k) ->
                 exists h j, i - S n < h <= i /\ usable_header lines h = true /\
                   AddMissing.brace_after lines h = Some j /\ k = j + 1 /\
                   (forall h', h < h' <= i -> usable_header lines h' = false)).
  { intros Hu Hs. apply IH in Hs; [|lia].
    destruct Hs as (h & j & Hr & Hh & Hb & Hk & Hnear).
    exists h, j. repeat split; try assumption; try lia.
    intros h' Hh'. destruct (Nat.eq_dec h' i) as [->|Hne]; [exact Hu|].
    apply Hnear. lia. }
  destruct (AddMissing.is_declaration line) eqn:D.
  - destruct (AddMissing.brace_after lines i) as [j|] eqn:B.
    + injection H as <-. exists i, j.
      split; [lia|].
      split; [unfold usable_header; now rewrite E, D, B|].
      split; [exact B|]. split; [reflexivity|].
      intros h' Hh'. lia.
    + apply Hrec; [|exact H]. unfold usable_header. now rewrite E, D, B.
  - apply Hrec; [|exact H]. unfold usable_header. now rewrite E, D.
Qed.

(** The scan reports "not found" exactly when no line of its window is a
    usable header. *)
Lemma scan_back_none : forall n i,
  n <= i -> (n = 0 \/ i < List.length lines) ->
  (AddMissing.scan_back lines i n = Ok None <->
   forall h, i - n < h <= i -> usable_header lines h = false).
Proof.
  induction n as [|n IH]; intros i Hn Hlen; simpl.
  - split; [intros _ h Hh; lia|reflexivity].
  - destruct Hlen as [Hz|Hlen]; [discriminate|].
    destruct (nth_error lines i) as [line|] eqn:E;
      [|apply nth_error_None in E; lia].
    assert (Hrec : usable_header lines i = false ->
              (AddMissing.scan_back lines (i - 1) n = Ok None <->
               forall h, i - S n < h <= i -> usable_header lines h = false)).
    { intros Hu. rewrite IH by lia. split.
      - intros Hall h Hh. destruct (Nat.eq_dec h i) as [->|Hne]; [exact Hu|].
        apply Hall. lia.
      - intros Hall h Hh. apply Hall. lia. }
    destruct (AddMissing.is_declaration line) eqn:D.
    + destruct (AddMissing.brace_after lines i) as [j|] eqn:B.
      * split; [discriminate|]. intros Hall.
        assert (Hu : usable_header lines i = false) by (apply Hall; lia).
        unfold usable_header in Hu. rewrite E, D, B in Hu. discriminate.
      * apply Hrec. unfold usable_header. now rewrite E, D, B.
    + apply Hrec. unfold usable_header. now rewrite E, D.
Qed.

End LocatorFacts.

(** C2 (as amended).  The locator returns the line after the first line
    with an opening brace, at or below the nearest usable header: the nearest
    line, from the diagnostic line upward within the 100 lines that end
    there, that has the declaration shape [\s*(async\s+)?\w+\s*\(] and a
    brace within the 20 lines from it.  A closure whose header has no such shape is passed over,
    and its diagnostic gets the boundary of the method around it. *)
Theorem locator_returns_nearest_usable_header :
  forall (lines : list text) (error_line k : nat),
  AddMissing.find_method_start lines error_line = Ok (Some k) ->
  exists h j,
    error_line - 100 <= h < error_line /\
    (exists line, nth_error lines h = Some line /\
                  AddMissing.is_declaration line = true) /\
    h <= j < h + 20 /\
    (exists line, nth_error lines j = Some line /\ has_char "{"%char line = true) /\
    (forall j', h <= j' < j ->
       forall line, nth_error lines j' = Some line ->
                    has_char "{"%char line = false) /\
    k = j + 1 /\
    (forall h', h < h' < error_line -> usable_header lines h' = false).
Proof.
  intros lines L k H. unfold AddMissing.find_method_start in H.
  apply scan_back_some in H; [|lia].
  destruct H as (h & j & Hr & Hu & Hb & Hk & Hnear).
  exists h, j.
  destruct (usable_header_true lines h Hu) as (line & j0 & El & Dl & Bl).
  unfold AddMissing.brace_after in Hb.
  apply first_brace_some in Hb. destruct Hb as (Hj & Hbr & Hfirst).
  split; [lia|]. split; [now exists line|]. split; [lia|].
  split; [exact Hbr|]. split; [exact Hfirst|]. split; [exact Hk|].
  intros h' Hh'. apply Hnear. lia.
Qed.

Lemma locator_returns_nearest_usable_header_witness :
  exists h j,
    5 - 100 <= h < 5 /\
    (exists line, nth_error Fixtures.nested_closure h = Some line /\
                  AddMissing.is_declaration line = true) /\
    h <= j < h + 20 /\
    (exists line, nth_error Fixtures.nested_closure j = Some line /\
                  has_char "{"%char line = true) /\
    (forall j', h <= j' < j ->
       forall line, nth_error Fixtures.nested_closure j' = Some line ->
                    has_char "{"%char line = false) /\
    2 = j + 1 /\
    (forall h', h < h' < 5 -> usable_header Fixtures.nested_closure h' = false).
Proof.
  apply (locator_returns_nearest_usable_header Fixtures.nested_closure 5 2).
  vm_compute. reflexivity.
Defined.

(** C2, the claim as stated fails: for the diagnostic inside the closure
    (line 5) the innermost enclosing body starts at index 4, after the
    closure's own brace, but the locator answers index 2, after the brace of
    the outer method, and that is where the one declaration is put. *)
Lemma locator_misses_inner_closure :
  Spec.enclosing_body_start Fixtures.nested_closure 5 = Some 4 /\
  AddMissing.find_method_start Fixtures.nested_closure 5 = Ok (Some 2) /\
  AddMissing.find_method_start Fixtures.nested_closure 5 <> Ok (Some 4) /\
  AddMissing.fix_file Fixtures.nested_closure [5]
  = Ok (Write (AddMissing.list_insert 2
                 (str "    const tenantId = getTenantId(user);" ++ [nl; nl])
                 Fixtures.nested_closure)).
Proof.
  repeat split; try (vm_compute; reflexivity).
  vm_compute. discriminate.
Qed.

(** The locator reports "not found" exactly when no line of its window is
    a usable header. *)
Lemma locator_not_found_iff : forall (lines : list text) (error_line : nat),
  error_line <= List.length lines ->
  (AddMissing.find_method_start lines error_line = Ok None <->
   forall h, error_line - 100 < h < error_line -> usable_header lines h = false).
Proof.
  intros lines L HL. unfold AddMissing.find_method_start.
  rewrite scan_back_none by lia.
  split; intros Hall h Hh; apply Hall; lia.
Qed.

(** C8 (as amended).  For a diagnostic line inside the file: if no line
    among the diagnostic line and the 99 lines above it is a usable header,
    that is, has the declaration shape and an opening brace within the 20
    lines from it, the locator reports "not found", and the diagnostic then
    changes neither the lines nor the set of fixed methods. *)
Theorem not_found_means_no_insertion :
  forall (lines : list text) (methods_fixed : list nat) (error_line : nat),
  error_line <= List.length lines ->
  (forall h, error_line - 100 <= h < error_line -> usable_header lines h = false) ->
  AddMissing.find_method_start lines error_line = Ok None /\
  AddMissing.fix_step (lines, methods_fixed) error_line
  = Ok (lines, methods_fixed).
Proof.
  intros lines fixed L HL Hall.
  assert (H : AddMissing.find_method_start lines L = Ok None).
  { apply locator_not_found_iff; [exact HL|].
    intros h Hh. apply Hall. lia. }
  split; [exact H|]. unfold AddMissing.fix_step. now rewrite H.
Qed.

Lemma not_found_means_no_insertion_witness :
  AddMissing.find_method_start Fixtures.field_only 2 = Ok None /\
  AddMissing.fix_step (Fixtures.field_only, []) 2
  = Ok (Fixtures.field_only, []).
Proof.
  apply (not_found_means_no_insertion Fixtures.field_only [] 2).
  - vm_compute. lia.
  - intros h Hh.
    assert (Hcase : h = 0 \/ h = 1) by lia.
    destruct Hcase as [->| ->]; vm_compute; reflexivity.
Defined.

(** C8, the claim as stated fails twice.  In the first file the header found
    first ("bar(", index 2) has no brace below it, and in the second no line
    above the diagnostic line has the declaration shape; the locator still
    answers with a boundary, and the second file gets a declaration. *)
Lemma locator_finds_despite_missing_brace :
  (option_map AddMissing.is_declaration (nth_error Fixtures.call_without_brace 2)
   = Some true /\
   AddMissing.is_declaration (nth 3 Fixtures.call_without_brace []) = false /\
   AddMissing.brace_after Fixtures.call_without_brace 2 = None /\
   AddMissing.find_method_start Fixtures.call_without_brace 4 = Ok (Some 2) /\
   AddMissing.find_method_start Fixtures.call_without_brace 4 <> Ok None) /\
  (AddMissing.is_declaration (nth 0 Fixtures.header_on_error_line []) = false /\
   AddMissing.find_method_start Fixtures.header_on_error_line 2 = Ok (Some 2) /\
   AddMissing.fix_file Fixtures.header_on_error_line [2]
   = Ok (Write (AddMissing.list_insert 2
                  (str "const tenantId = getTenantId(user);" ++ [nl; nl])
                  Fixtures.header_on_error_line))).
Proof.
  repeat split; try (vm_compute; reflexivity).
  vm_compute. discriminate.
Qed.

(** ** Soundness of the matcher *)

Section MatcherFacts.

Lemma many_sound : forall k rs sn kont res,
  many k sn rs kont = Some res ->
  exists w rs',
    forallb (cls_ok k) w = true /\ rs = w ++ rs' /\
    kont (rev w ++ sn) rs' = Some res.
Proof.
  induction rs as [|x rs IH]; intros sn kont res H; simpl in H.
  - exists [], []. now repeat split.
  - destruct (cls_ok k x) eqn:Ek.
    + destruct (many k (x :: sn) rs kont) as [r1|] eqn:Em.
      * injection H as <-. apply IH in Em.
        destruct Em as (w & rs' & Hw & -> & Hk).
        exists (x :: w), rs'. simpl. rewrite Ek, Hw.
        repeat split. now rewrite <- app_assoc.
      * exists [], (x :: rs). now repeat split.
    + exists [], (x :: rs). now repeat split.
Qed.

(** Whatever the matcher answers went through the continuation at a
    configuration that the pattern allows. *)
Lemma exec_sound : forall r c kont res,
  exec r c kont = Some res ->
  exists c', den r c c' /\ kont c' = Some res.
Proof.
  induction r as [|k|a IHa b IHb|a IHa b IHb|k|n r IH|w|];
    intros c kont res H; simpl in H.
  - now exists c.
  - destruct (rest c) as [|x rs] eqn:Er; [discriminate|].
    destruct (cls_ok k x) eqn:Ek; [|discriminate].
    exists (Cfg (x :: seen c) rs (caps c)). split; [|exact H].
    simpl. exists x. now repeat split.
  - apply IHa in H. destruct H as (m & Ha & H).
    apply IHb in H. destruct H as (c' & Hb & H).
    exists c'. split; [|exact H]. simpl. now exists m.
  - destruct (exec a c kont) as [r1|] eqn:Ea.
    + injection H as <-. apply IHa in Ea. destruct Ea as (c' & Ha & Hk).
      exists c'. split; [now left|exact Hk].
    + apply IHb in H. destruct H as (c' & Hb & Hk).
      exists c'. split; [now right|exact Hk].
  - apply many_sound in H. destruct H as (w & rs' & Hw & Hrs & Hk).
    exists (Cfg (rev w ++ seen c) rs' (caps c)). split; [|exact Hk].
    simpl. exists w. now repeat split.
  - apply IH in H. destruct H as (m & Hm & Hk).
    eexists. split; [|exact Hk]. simpl. now exists m.
  - destruct (starts_with (rev w) (seen c)) eqn:E; [discriminate|].
    exists c. now repeat split.
  - destruct (xorb (head_is_word (seen c)) (head_is_word (rest c))) eqn:E;
      [|discriminate].
    exists c. now repeat split.
Qed.

(** A run passes over one stretch of text. *)
Lemma den_span : forall r c c',
  den r c c' ->
  exists w, rest c = w ++ rest c' /\ seen c' = rev w ++ seen c.
Proof.
  induction r as [|k|a IHa b IHb|a IHa b IHb|k|n r IH|w|];
    intros c c' H; simpl in H.
  - subst. now exists [].
  - destruct H as (x & Hr & _ & Hs & _). exists [x]. now split.
  - destruct H as (m & Ha & Hb).
    apply IHa in Ha. destruct Ha as (w1 & Hr1 & Hs1).
    apply IHb in Hb. destruct Hb as (w2 & Hr2 & Hs2).
    exists (w1 ++ w2). split.
    + now rewrite Hr1, Hr2, app_assoc.
    + now rewrite Hs2, Hs1, rev_app_distr, app_assoc.
  - destruct H as [H|H]; [now apply IHa|now apply IHb].
  - destruct H as (w & _ & Hr & Hs & _). now exists w.
  - destruct H as (m & Hm & ->). simpl. now apply IH.
  - destruct H as [-> _]. now exists [].
  - destruct H as [-> _]. now exists [].
Qed.

Lemma consumed_span : forall c c' w,
  seen c' = rev w ++ seen c -> consumed c c' = w.
Proof.
  intros c c' w Hs. unfold consumed. rewrite Hs.
  rewrite length_app, length_rev.
  replace (List.length w + List.length (seen c) - List.length (seen c))
    with (List.length (rev w) + 0) by (rewrite length_rev; lia).
  rewrite firstn_app_2. simpl. rewrite app_nil_r. apply rev_involutive.
Qed.

Lemma den_groupless : forall r c c',
  groupless r = true -> den r c c' -> caps c' = caps c.
Proof.
  induction r as [|k|a IHa b IHb|a IHa b IHb|k|n r IH|w|];
    intros c c' G H; simpl in G, H; try discriminate.
  - now subst.
  - now destruct H as (x & _ & _ & _ & Hc).
  - apply andb_prop in G. destruct G as [Ga Gb].
    destruct H as (m & Ha & Hb).
    rewrite (IHb _ _ Gb Hb). now apply IHa.
  - apply andb_prop in G. destruct G as [Ga Gb].
    destruct H as [H|H]; [now apply IHa|now apply IHb].
  - now destruct H as (w & _ & _ & _ & Hc).
  - now destruct H as [-> _].
  - now destruct H as [-> _].
Qed.

Lemma groupless_lit : forall s, groupless (lit s) = true.
Proof. induction s as [|x s IH]; simpl; [reflexivity|exact IH]. Qed.

Lemma den_lit : forall s c c',
  den (lit s) c c' ->
  rest c = s ++ rest c' /\ seen c' = rev s ++ seen c /\ caps c' = caps c.
Proof.
  induction s as [|x s IH]; intros c c' H; simpl in H.
  - subst. now repeat split.
  - destruct H as (m & (y & Hr & Hy & Hs & Hc) & Hm).
    apply Ascii.eqb_eq in Hy. subst y.
    apply IH in Hm. destruct Hm as (Hr' & Hs' & Hc').
    repeat split.
    + rewrite Hr, Hr'. reflexivity.
    + rewrite Hs', Hs. simpl. now rewrite <- app_assoc.
    + now rewrite Hc', Hc.
Qed.

Lemma den_seqs_app : forall a b c c',
  den (seqs (a ++ b)) c c' ->
  exists m, den (seqs a) c m /\ den (seqs b) m c'.
Proof.
  induction a as [|r a IH]; intros b c c' H; simpl in H |- *.
  - now exists c.
  - destruct H as (m1 & Hr & Hrest).
    apply IH in Hrest. destruct Hrest as (m & Ha & Hb).
    exists m. split; [now exists m1|exact Hb].
Qed.

(** A match reported at a position is a prefix of the text ahead. *)
Lemma match_here_span : forall r sn rs m,
  match_here r sn rs = Some m ->
  exists rs', rs = m_text m ++ rs' /\
              m_start m = List.length sn /\
              m_end m = List.length sn + List.length (m_text m).
Proof.
  intros r sn rs m H. unfold match_here in H.
  destruct (exec r (Cfg sn rs []) Some) as [c'|] eqn:E; [|discriminate].
  injection H as <-. simpl.
  apply exec_sound in E. destruct E as (c1 & Hd & Hk).
  injection Hk as ->.
  apply den_span in Hd. destruct Hd as (w & Hr & Hs). simpl in Hr, Hs.
  rewrite (consumed_span (Cfg sn rs []) c' w Hs).
  exists (rest c'). split; [exact Hr|]. split; [reflexivity|].
  rewrite Hs, length_app, length_rev. lia.
Qed.

(** The pieces of a scan spell out the text scanned. *)
Lemma scan_src : forall r rs sn skip,
  concat (map piece_src (scan r sn rs skip)) = skipn skip rs.
Proof.
  induction rs as [|x rs IH]; intros sn skip.
  - destruct skip; simpl; [|reflexivity].
    destruct (match_here r sn []) as [m|] eqn:E; [|reflexivity].
    apply match_here_span in E. destruct E as (rs' & Hr & _).
    simpl. symmetry in Hr. apply app_eq_nil in Hr. destruct Hr as [-> _].
    reflexivity.
  - destruct skip as [|n]; simpl; [|apply IH].
    destruct (match_here r sn (x :: rs)) as [m|] eqn:E.
    + apply match_here_span in E. destruct E as (rs' & Hr & _).
      simpl. unfold piece_src at 1. simpl.
      destruct (m_text m) as [|y t] eqn:Et; simpl.
      * rewrite IH. reflexivity.
      * simpl in Hr. injection Hr as <- ->.
        rewrite IH. f_equal.
        rewrite skipn_app, Nat.sub_diag, skipn_all. reflexivity.
    + simpl. rewrite IH. reflexivity.
Qed.

(** Every match of a scan was reported by the matcher at some position. *)
Lemma scan_hits : forall r rs sn skip,
  Forall (fun p => match p with
                   | Plain _ => True
                   | Hit m => exists sn' rs', match_here r sn' rs' = Some m
                   end)
         (scan r sn rs skip).
Proof.
  induction rs as [|x rs IH]; intros sn skip.
  - destruct skip; simpl; [|constructor].
    destruct (match_here r sn []) as [m|] eqn:E; constructor.
    + now exists sn, [].
    + constructor.
  - destruct skip as [|n]; simpl; [|apply IH].
    destruct (match_here r sn (x :: rs)) as [m|] eqn:E.
    + constructor; [now exists sn, (x :: rs)|].
      destruct (List.length (m_text m)); [constructor; [exact I|]|]; apply IH.
    + constructor; [exact I|apply IH].
Qed.

End MatcherFacts.

(** ** The guard insertion of fix-reconciliation-nulls.py *)

Section ReconFacts.

(** A literal inside a sequence shows in the text passed. *)
Lemma den_seqs_lit_inside : forall a s b c c',
  den (seqs (a ++ lit s :: b)) c c' ->
  exists w1 w2,
    rest c = (w1 ++ s ++ w2) ++ rest c' /\
    (a = [] -> w1 = []) /\ (b = [] -> w2 = []).
Proof.
  intros a s b c c' H.
  apply den_seqs_app in H. destruct H as (m1 & Ha & Hb).
  cbn [seqs den] in Hb. destruct Hb as (m2 & Hlit & Htail).
  pose proof (den_span _ _ _ Ha) as (w1 & Hr1 & _).
  apply den_lit in Hlit. destruct Hlit as (Hr2 & _ & _).
  pose proof (den_span _ _ _ Htail) as (w2 & Hr3 & _).
  exists w1, w2. split; [|split].
  - rewrite Hr1, Hr2, Hr3. now rewrite <- !app_assoc.
  - intros ->. cbn [seqs den] in Ha. subst m1.
    apply (f_equal (@List.length ascii)) in Hr1.
    rewrite length_app in Hr1. destruct w1; [reflexivity|].
    cbn [List.length] in Hr1. lia.
  - intros ->. cbn [seqs den] in Htail. subst m2.
    apply (f_equal (@List.length ascii)) in Hr3.
    rewrite length_app in Hr3. destruct w2; [reflexivity|].
    cbn [List.length] in Hr3. lia.
Qed.

Lemma den_method_header : forall c c',
  den Recon.method_header c c' ->
  exists hw,
    rest c = hw ++ rest c' /\ seen c' = rev hw ++ seen c /\
    caps c' = caps c /\
    starts_with (str "async ") hw = true /\
    contains (str "@CurrentUser() user: IUser") hw = true /\
    ends_with (str "{") hw = true.
Proof.
  intros c c' H.
  pose proof (den_span _ _ _ H) as (hw & Hr & Hs).
  exists hw. split; [exact Hr|]. split; [exact Hs|].
  split; [apply (den_groupless Recon.method_header); [reflexivity|exact H]|].
  split; [|split].
  - apply (den_seqs_lit_inside [] (str "async ")) in H.
    destruct H as (w1 & w2 & Hw & Hnil & _).
    rewrite (Hnil eq_refl), Hr in Hw. apply app_inv_tail in Hw.
    rewrite Hw. cbn [app]. apply starts_with_app.
  - apply (den_seqs_lit_inside
             [lit (str "async "); plus CWord; lit (str "("); Many (CNot ")"%char)]
             (str "@CurrentUser() user: IUser")) in H.
    destruct H as (w1 & w2 & Hw & _ & _).
    rewrite Hr in Hw. apply app_inv_tail in Hw.
    rewrite Hw. apply contains_inside.
  - apply (den_seqs_lit_inside
             [lit (str "async "); plus CWord; lit (str "("); Many (CNot ")"%char);
              lit (str "@CurrentUser() user: IUser"); Many (CNot ")"%char);
              lit (str ")"); Many (CNot "{"%char)]
             (str "{") []) in H.
    destruct H as (w1 & w2 & Hw & _ & Hnil).
    rewrite (Hnil eq_refl), Hr in Hw. apply app_inv_tail in Hw.
    rewrite Hw, app_nil_r. apply ends_with_app.
Qed.

Lemma den_logger_call : forall c c',
  den Recon.logger_call c c' ->
  exists cw v,
    In cw logger_calls /\
    rest c = cw ++ rest c' /\ seen c' = rev cw ++ seen c /\
    caps c' = (3, v) :: caps c.
Proof.
  intros c c' H. unfold Recon.logger_call in H. cbn [seqs den] in H.
  destruct H as (a & Hpre & b & (k0 & Hkind & ->) & d & Hpar & ->).
  apply den_lit in Hpre. destruct Hpre as (Hr1 & Hs1 & Hc1).
  apply den_lit in Hpar. destruct Hpar as (Hr3 & Hs3 & Hc3).
  cbn [rest seen caps] in Hr3, Hs3, Hc3.
  assert (Hk : exists kw,
             In kw [str "log"; str "debug"; str "warn"] /\
             rest a = kw ++ rest k0 /\ seen k0 = rev kw ++ seen a /\
             caps k0 = caps a).
  { unfold Recon.logger_kind in Hkind. cbn [den] in Hkind.
    destruct Hkind as [Hk|[Hk|Hk]]; apply den_lit in Hk;
      destruct Hk as (? & ? & ?).
    - exists (str "log"). split; [now left|now repeat split].
    - exists (str "debug"). split; [right; now left|now repeat split].
    - exists (str "warn"). split; [right; right; now left|now repeat split]. }
  destruct Hk as (kw & Hin & Hr2 & Hs2 & Hc2).
  exists (str "this.logger." ++ kw ++ str "("), (consumed a k0).
  split.
  - destruct Hin as [<-|[<-|[<-|[]]]];
      [left|right; left|right; right; left]; reflexivity.
  - split; [|split].
    + rewrite Hr1, Hr2, Hr3. now rewrite <- !app_assoc.
    + rewrite Hs3, Hs2, Hs1. rewrite !rev_app_distr. now rewrite <- !app_assoc.
    + rewrite Hc3. f_equal. now rewrite Hc2, Hc1.
Qed.

(** What a match of the reconciliation pattern is made of. *)
Lemma recon_match_shape : forall sn rs m,
  match_here Recon.method_pattern sn rs = Some m ->
  exists h w cl,
    m_text m = h ++ w ++ cl /\ group 1 m = h /\ group 2 m = cl /\
    seg_ok (Guarded h w cl).
Proof.
  intros sn rs m H. unfold match_here in H.
  destruct (exec Recon.method_pattern (Cfg sn rs []) Some) as [c'|] eqn:E;
    [|discriminate].
  injection H as <-.
  apply exec_sound in E. destruct E as (c1 & Hd & Hk). injection Hk as ->.
  unfold Recon.method_pattern in Hd. cbn [seqs den] in Hd.
  destruct Hd as (m1 & (mh & Hh & ->) & m2 & (w & Hw & Hrw & Hsw & Hcw)
                  & m3 & (mc & Hc & ->) & ->).
  cbn [rest seen caps] in *.
  apply den_method_header in Hh.
  destruct Hh as (hw & Hrh & Hsh & Hch & Hst & Hmk & Hen).
  cbn [rest seen caps] in *.
  apply den_logger_call in Hc.
  destruct Hc as (cw & v & Hin & Hrc & Hsc & Hcc).
  exists hw, w, cw.
  assert (Hall : seen mc = rev (hw ++ w ++ cw) ++ sn).
  { rewrite Hsc, Hsw, Hsh. rewrite !rev_app_distr. now rewrite <- !app_assoc. }
  split; [|split; [|split]].
  - cbn [m_text]. apply consumed_span. cbn [seen]. exact Hall.
  - unfold group. cbn [m_caps caps].
    rewrite Hcc, Hcw, Hch. cbn [lookup Nat.eqb].
    apply consumed_span. cbn [seen]. exact Hsh.
  - unfold group. cbn [m_caps caps lookup Nat.eqb].
    apply consumed_span. exact Hsc.
  - cbn [seg_ok]. now repeat split.
Qed.


End ReconFacts.




(** The transformation on a method that starts with a logger call. *)
Example recon_guards_logged_method :
  Recon.transformation Fixtures.logged_method = Fixtures.logged_method_guarded.
Proof. vm_compute. reflexivity. Qed.

(** ** Defects shown on concrete files *)

(** C1.  A second run of [fix_controller_file] on its own output changes the
    file again.  The method binds [tenantId] without testing it: the first
    run takes the binding for a guard and inserts nothing, then rewrites the
    binding itself; the second run finds no guard signature any more and
    inserts the guard. *)
Theorem second_run_changes_file :
  FixAll.fix_controller_file Fixtures.bound_controller
  = Write Fixtures.bound_once /\
  FixAll.fix_controller_file Fixtures.bound_once
  = Write Fixtures.bound_twice /\
  Fixtures.bound_twice <> Fixtures.bound_once.
Proof.
  split; [vm_compute; reflexivity|]. split; [vm_compute; reflexivity|].
  vm_compute. discriminate.
Qed.

(** A second cause: [str.replace] turns [user.user.tenantId] into
    [user.tenantId], which the next run rewrites again. *)
Example second_run_rewrites_new_occurrence :
  FixAll.fix_controller_file Fixtures.nested_user_controller
  = Write Fixtures.nested_user_once /\
  FixAll.fix_controller_file Fixtures.nested_user_once
  = Write Fixtures.nested_user_twice /\
  Fixtures.nested_user_twice <> Fixtures.nested_user_once.
Proof.
  split; [vm_compute; reflexivity|]. split; [vm_compute; reflexivity|].
  vm_compute. discriminate.
Qed.

(** C3.  [fix_controller_file] writes a file whose content it did not
    change: the controller already carries the guard, the text written is
    the text read, and the path is added to the writes. *)
Theorem unchanged_controller_is_written :
  FixAll.fix_controller_file Fixtures.guarded_controller
  = Write Fixtures.guarded_controller /\
  writes (run_fixer FixAll.fix_controller_file Fixtures.controller_path
            (World [(Fixtures.controller_path, Fixtures.guarded_controller)] []))
  = [Fixtures.controller_path].
Proof.
  split; vm_compute; reflexivity.
Qed.

(** X3.  The fixers that compare before writing do write only changed
    content. *)
Lemma comparing_fixers_write_only_changes : forall path content new_content,
  (RemainingNulls.fix_any_file path content = Write new_content ->
   new_content <> content) /\
  (FixAll.fix_dto_file content = Write new_content -> new_content <> content) /\
  (FixAll.fix_types_file content = Write new_content -> new_content <> content) /\
  (RemainingTenantId.fix_file path content = Write new_content ->
   new_content <> content).
Proof.
  intros path content new_content. repeat split.
  - unfold RemainingNulls.fix_any_file.
    destruct (text_eqb (RemainingNulls.fixed_content path content) content) eqn:E;
      [discriminate|].
    intros H. injection H as <-. now apply text_eqb_false.
  - unfold FixAll.fix_dto_file.
    match goal with |- (if text_eqb ?x _ then _ else _) = _ -> _ =>
      destruct (text_eqb x content) eqn:E end; [discriminate|].
    intros H. injection H as <-. now apply text_eqb_false.
  - unfold FixAll.fix_types_file.
    match goal with |- (if text_eqb ?x _ then _ else _) = _ -> _ =>
      destruct (text_eqb x content) eqn:E end; [discriminate|].
    intros H. injection H as <-. now apply text_eqb_false.
  - unfold RemainingTenantId.fix_file.
    destruct (if negb (contains (str "getTenantId") content)
              then RemainingTenantId.add_import path
                     RemainingTenantId.user_import_patterns content
              else (content, false)) as [c1 m1].
    destruct (subn RemainingTenantId.manual_check
                (fun _ => RemainingTenantId.replacement) c1) as [c2 n].
    destruct (if 0 <? n then (c2, true) else (c1, m1)) as [c3 m3].
    destruct m3; [|discriminate].
    destruct (text_eqb c3 content) eqn:E; [discriminate|].
    intros H. injection H as <-. now apply text_eqb_false.
Qed.

(** Tail-to-head order, as fix-all-tenant-nulls.py and fix-remaining-nulls.py
    apply it: an insertion at a later offset leaves the earlier offset where
    it was, so both texts land at the offsets taken from the snapshot. *)
Lemma tail_first_keeps_offsets : forall (p q : nat) (a b s : text),
  p <= q -> q <= List.length s ->
  insert_at p a (insert_at q b s)
  = slice_to p s ++ a ++ slice p q s ++ b ++ slice_from q s.
Proof.
  unfold insert_at, slice_to, slice_from, slice.
  induction p as [|p IH]; intros q a b s Hpq Hq.
  - cbn [firstn skipn app]. now rewrite Nat.sub_0_r.
  - destruct q as [|q]; [lia|]. destruct s as [|x s]; [simpl in Hq; lia|].
    simpl in Hq. cbn [firstn skipn app Nat.sub]. f_equal.
    apply IH; lia.
Qed.

(** C4.  add-missing-tenant-id.py handles the diagnostics in ascending
    order.  On the snapshot the three diagnostics have their boundaries at
    indices 2, 5 and 8.  Each declaration put in moves the lines below it,
    the line numbers of the later diagnostics are not moved with them, and
    for the third diagnostic the locator lands in the second method again:
    the third declaration is never inserted. *)
Theorem ascending_order_loses_insertion :
  AddMissing.sorted [9; 3; 6] = [3; 6; 9] /\
  AddMissing.find_method_start Fixtures.three_methods 3 = Ok (Some 2) /\
  AddMissing.find_method_start Fixtures.three_methods 6 = Ok (Some 5) /\
  AddMissing.find_method_start Fixtures.three_methods 9 = Ok (Some 8) /\
  AddMissing.fix_file Fixtures.three_methods [9]
  = Ok (Write (AddMissing.list_insert 8 Fixtures.declaration_line
                 Fixtures.three_methods)) /\
  AddMissing.find_method_start
    (AddMissing.list_insert 6 Fixtures.declaration_line
       (AddMissing.list_insert 2 Fixtures.declaration_line
          Fixtures.three_methods)) 9
  = Ok (Some 6) /\
  AddMissing.fix_file Fixtures.three_methods [9; 3; 6]
  = Ok (Write (AddMissing.list_insert 6 Fixtures.declaration_line
                 (AddMissing.list_insert 2 Fixtures.declaration_line
                    Fixtures.three_methods))).
Proof.
  repeat split; vm_compute; reflexivity.
Qed.

(** C10.  In a service file with two short methods that take
    [tenantId: string] and have no [!tenantId] in the 200 characters after
    their brace, only the second gets the check: the window of the first is
    read after the second was patched and sees the check just inserted
    there. *)
Theorem first_function_left_unguarded :
  RemainingNulls.is_service_path Fixtures.service_path = true /\
  map (fun m => (m_start m, m_end m))
      (finditer RemainingNulls.func_pattern Fixtures.short_service)
  = [(33, 81); (131, 182)] /\
  contains RemainingNulls.param_test (slice 81 (81 + 200) Fixtures.short_service)
  = false /\
  contains RemainingNulls.param_test (slice 182 (182 + 200) Fixtures.short_service)
  = false /\
  RemainingNulls.fix_any_file Fixtures.service_path Fixtures.short_service
  = Write Fixtures.short_service_fixed.
Proof.
  repeat split; vm_compute; reflexivity.
Qed.

(** ** What does hold of a second run *)

Section SecondRunFacts.

Lemma skipn_inserted : forall (p : nat) (ins s : text),
  p <= List.length s -> skipn p (insert_at p ins s) = ins ++ skipn p s.
Proof.
  intros p ins s Hp. unfold insert_at, slice_to, slice_from.
  rewrite skipn_app, firstn_length_le by exact Hp.
  rewrite Nat.sub_diag. cbn [skipn].
  rewrite skipn_all2 by (rewrite firstn_length_le; [lia|exact Hp]).
  reflexivity.
Qed.

(** The window read right after an insertion starts with the text
    inserted. *)
Lemma window_after_insertion : forall (p n : nat) (ins s : text),
  p <= List.length s -> List.length ins <= n ->
  exists more, slice p (p + n) (insert_at p ins s) = ins ++ more.
Proof.
  intros p n ins s Hp Hn. unfold slice.
  rewrite skipn_inserted by exact Hp.
  replace (p + n - p) with n by lia.
  rewrite firstn_app, firstn_all2 by exact Hn.
  now eexists.
Qed.

(** X2.  The window check does suppress a second insertion at the same place:
    each of the three insertion steps, applied again to its own result at
    the same match, changes nothing. *)
Lemma guard_not_inserted_twice : forall (content : text) (m : found),
  m_end m <= List.length content ->
  FixAll.insert_guard (FixAll.insert_guard content m) m
  = FixAll.insert_guard content m /\
  RemainingNulls.insert_guard (RemainingNulls.insert_guard content m) m
  = RemainingNulls.insert_guard content m /\
  RemainingNulls.insert_param_check (RemainingNulls.insert_param_check content m) m
  = RemainingNulls.insert_param_check content m.
Proof.
  intros content m Hm. repeat split.
  - assert (Hc : FixAll.insert_guard content m = content \/
                 FixAll.insert_guard content m
                 = insert_at (m_end m) null_check content).
    { unfold FixAll.insert_guard.
      destruct (contains guard_test _ || contains guard_binding _);
        [now left|now right]. }
    destruct Hc as [Hc|Hc]; [now rewrite !Hc|]. rewrite Hc.
    unfold FixAll.insert_guard.
    destruct (window_after_insertion (m_end m) 200 null_check content Hm)
      as (more & ->); [vm_compute; lia|].
    now rewrite (contains_more guard_test null_check more).
  - assert (Hc : RemainingNulls.insert_guard content m = content \/
                 RemainingNulls.insert_guard content m
                 = insert_at (m_end m) null_check content).
    { unfold RemainingNulls.insert_guard.
      destruct (contains guard_test _); [now left|now right]. }
    destruct Hc as [Hc|Hc]; [now rewrite !Hc|]. rewrite Hc.
    unfold RemainingNulls.insert_guard.
    destruct (window_after_insertion (m_end m) 300 null_check content Hm)
      as (more & ->); [vm_compute; lia|].
    now rewrite (contains_more guard_test null_check more).
  - assert (Hc : RemainingNulls.insert_param_check content m = content \/
                 RemainingNulls.insert_param_check content m
                 = insert_at (m_end m) RemainingNulls.param_check content).
    { unfold RemainingNulls.insert_param_check.
      destruct (contains RemainingNulls.param_test _); [now left|now right]. }
    destruct Hc as [Hc|Hc]; [now rewrite !Hc|]. rewrite Hc.
    unfold RemainingNulls.insert_param_check.
    destruct (window_after_insertion (m_end m) 200
                RemainingNulls.param_check content Hm)
      as (more & ->); [vm_compute; lia|].
    now rewrite (contains_more RemainingNulls.param_test
                   RemainingNulls.param_check more).
Qed.

Lemma render_first_hit : forall (repl : found -> text) (ps : list piece),
  hits ps <> [] ->
  exists pre m post, render_first repl ps = pre ++ repl m ++ post.
Proof.
  induction ps as [|p ps IH]; intros H; [now elim H|].
  destruct p as [c|m]; cbn [render_first hits] in H |- *.
  - destruct (IH H) as (pre & m & post & ->). now exists (c :: pre), m, post.
  - now exists [], m, (concat (map (render m_text) ps)).
Qed.

(** Once the import has been added the text holds [getTenantId], so the
    import step of a later run is skipped. *)
Lemma import_added_once : forall (filepath : text) (patterns : list re)
                                 (content new_content : text),
  RemainingTenantId.add_import filepath patterns content = (new_content, true) ->
  contains (str "getTenantId") new_content = true.
Proof.
  induction patterns as [|pattern more IH]; intros content new_content H;
    cbn [RemainingTenantId.add_import] in H; [discriminate|].
  destruct (search pattern content) as [m0|] eqn:E; [|now apply IH in H].
  injection H as <-. unfold sub1.
  assert (Hhits : hits (pieces pattern content) <> []).
  { unfold search, finditer in E.
    destruct (hits (pieces pattern content)); [discriminate|discriminate]. }
  destruct (render_first_hit
              (fun m => group 1 m ++ RemainingTenantId.import_line filepath)
              _ Hhits) as (pre & m & post & ->).
  unfold RemainingTenantId.import_line.
  replace (str "import { getTenantId } from '")
    with (str "import { " ++ str "getTenantId" ++ str " } from '")
    by reflexivity.
  replace (pre ++ (group 1 m ++ nl ::
            (str "import { " ++ str "getTenantId" ++ str " } from '") ++
            RemainingTenantId.relative_path filepath ++ str "';") ++ post)
    with ((pre ++ group 1 m ++ nl :: str "import { ") ++ str "getTenantId" ++
          (str " } from '" ++ RemainingTenantId.relative_path filepath
             ++ str "';" ++ post)).
  - apply contains_inside.
  - rewrite <- !app_assoc. cbn [app]. rewrite <- !app_assoc. reflexivity.
Qed.

End SecondRunFacts.

(** ** The import specifier *)

Section ImportFacts.




End ImportFacts.




(** ** Tail-to-head insertion in the pattern-driven fixers *)

Section TailToHead.

Variable ins : text.

Lemma existsb_eqb_false : forall (p : nat) (offs : list nat),
  (forall o, In o offs -> p < o) -> existsb (Nat.eqb p) offs = false.
Proof.
  intros p offs H. induction offs as [|o offs IH]; [reflexivity|].
  cbn [existsb]. rewrite IH by (intros o' Ho'; apply H; now right).
  assert (Hp : p < o) by (apply H; now left).
  destruct (Nat.eqb_spec p o); [lia|reflexivity].
Qed.

(** Below the first offset the snapshot is copied. *)
Lemma weave_split : forall (offs : list nat) (p : nat) (s : text) (pos : nat),
  p <= List.length s ->
  (forall o, In o offs -> pos + p <= o) ->
  Spec.weave ins offs pos s
  = firstn p s ++ Spec.weave ins offs (pos + p) (skipn p s).
Proof.
  intros offs. induction p as [|p IH]; intros s pos Hp Hoffs.
  - rewrite Nat.add_0_r. reflexivity.
  - destruct s as [|c s]; [simpl in Hp; lia|]. simpl in Hp.
    cbn [Spec.weave firstn skipn].
    rewrite existsb_eqb_false by (intros o Ho; apply Hoffs in Ho; lia).
    cbn [app]. f_equal.
    rewrite (IH s (S pos)); [|lia|intros o Ho; apply Hoffs in Ho; lia].
    now replace (S pos + p) with (pos + S p) by lia.
Qed.

Lemma weave_past : forall (offs : list nat) (p : nat) (s : text) (pos : nat),
  p < pos -> Spec.weave ins (p :: offs) pos s = Spec.weave ins offs pos s.
Proof.
  intros offs p s. induction s as [|c s IH]; intros pos Hp;
    cbn [Spec.weave existsb];
    (destruct (Nat.eqb_spec pos p); [lia|]); cbn [orb]; [reflexivity|].
  now rewrite IH by lia.
Qed.

Lemma weave_here : forall (offs : list nat) (p : nat) (s : text),
  (forall o, In o offs -> p < o) ->
  Spec.weave ins (p :: offs) p s = ins ++ Spec.weave ins offs p s.
Proof.
  intros offs p s Hoffs. destruct s as [|c s]; cbn [Spec.weave existsb];
    rewrite Nat.eqb_refl, (existsb_eqb_false p offs Hoffs); cbn [orb app].
  - reflexivity.
  - now rewrite weave_past by lia.
Qed.

(** Inserting below every offset already woven in lands at the offset of
    the snapshot. *)
Lemma insert_below_woven : forall (offs : list nat) (p : nat) (s : text),
  p <= List.length s ->
  (forall o, In o offs -> p < o) ->
  insert_at p ins (Spec.weave ins offs 0 s) = Spec.weave ins (p :: offs) 0 s.
Proof.
  intros offs p s Hp Hoffs. unfold insert_at, slice_to, slice_from.
  rewrite (weave_split offs p s 0 Hp)
    by (intros o Ho; apply Hoffs in Ho; lia).
  rewrite (weave_split (p :: offs) p s 0 Hp)
    by (intros o [<-|Ho]; [lia|apply Hoffs in Ho; lia]).
  cbn [Nat.add].
  assert (Hlen : List.length (firstn p s) = p) by (apply firstn_length_le; lia).
  rewrite firstn_app, Hlen, Nat.sub_diag, firstn_all2 by lia.
  cbn [firstn]. rewrite app_nil_r.
  rewrite skipn_app, Hlen, Nat.sub_diag, skipn_all2 by lia.
  cbn [skipn app]. f_equal. now rewrite weave_here.
Qed.

Lemma weave_nothing : forall (s : text) (pos : nat), Spec.weave ins [] pos s = s.
Proof.
  induction s as [|c s IH]; intros pos; cbn [Spec.weave existsb app];
    [reflexivity|]. now rewrite IH.
Qed.

(** A conditional insertion step applied from the last offset to the first:
    whatever each step decides, the result is the snapshot with the text at
    some of the offsets of the snapshot. *)
Lemma tail_to_head_lands : forall (step : text -> found -> text) (content : text),
  (forall cur m, step cur m = cur \/ step cur m = insert_at (m_end m) ins cur) ->
  forall (ds : list found) (chosen : list nat),
  StronglySorted (fun a b => m_end b < m_end a) ds ->
  Forall (fun m => m_end m <= List.length content) ds ->
  (forall o m, In o chosen -> In m ds -> m_end m < o) ->
  exists chosen',
    incl chosen' (map m_end ds ++ chosen) /\
    fold_left step ds (Spec.weave ins chosen 0 content)
    = Spec.weave ins chosen' 0 content.
Proof.
  intros step content Hstep.
  induction ds as [|m ds IH]; intros chosen Hsort Hlen Hlow.
  - exists chosen. split; [apply incl_refl|reflexivity].
  - inversion Hsort as [|m0 ds0 Hsort' Hm]; subst m0 ds0.
    inversion Hlen as [|m0 ds0 Hm_len Hlen']; subst m0 ds0.
    cbn [fold_left].
    destruct (Hstep (Spec.weave ins chosen 0 content) m) as [->| ->].
    + destruct (IH chosen Hsort' Hlen') as (chosen' & Hincl & Heq).
      { intros o m' Ho Hm'. apply Hlow; [exact Ho|now right]. }
      exists chosen'. split; [|exact Heq].
      intros o Ho. apply Hincl in Ho. cbn [map app]. now right.
    + rewrite insert_below_woven;
        [|exact Hm_len|intros o Ho; apply (Hlow o m Ho); now left].
      destruct (IH (m_end m :: chosen) Hsort' Hlen') as (chosen' & Hincl & Heq).
      { intros o m' [<-|Ho] Hm'.
        - rewrite Forall_forall in Hm. now apply Hm.
        - apply Hlow; [exact Ho|now right]. }
      exists chosen'. split; [|exact Heq].
      intros o Ho. apply Hincl in Ho. cbn [map app].
      apply in_app_or in Ho. destruct Ho as [Ho|[<-|Ho]].
      * right. apply in_or_app. now left.
      * now left.
      * right. apply in_or_app. now right.
Qed.

End TailToHead.

(** ** The matches of a scan, in order *)

Section ScanOrder.

Variable r : re.

Lemma scan_bounds : forall (rs sn : text) (skip : nat),
  Forall (fun m => List.length sn + skip <= m_start m /\
                   m_end m = m_start m + List.length (m_text m) /\
                   m_end m <= List.length sn + List.length rs)
         (hits (scan r sn rs skip)).
Proof.
  induction rs as [|x rs IH]; intros sn skip.
  - destruct skip; cbn [scan hits]; [|constructor].
    destruct (match_here r sn []) as [m|] eqn:E; cbn [hits]; [|constructor].
    apply match_here_span in E. destruct E as (rs' & Hr & Hs & He).
    symmetry in Hr. apply app_eq_nil in Hr. destruct Hr as [Ht _].
    constructor; [|constructor]. rewrite He, Hs, Ht. cbn [List.length]. lia.
  - assert (Hweak : forall n,
      Forall (fun m => List.length sn + 0 <= m_start m /\
                       m_end m = m_start m + List.length (m_text m) /\
                       m_end m <= List.length sn + List.length (x :: rs))
             (hits (scan r (x :: sn) rs n))).
    { intros n. eapply Forall_impl; [|apply (IH (x :: sn) n)].
      cbn [List.length]. intros m (H1 & H2 & H3). lia. }
    destruct skip as [|n]; cbn [scan].
    + destruct (match_here r sn (x :: rs)) as [m|] eqn:E; cbn [hits].
      * apply match_here_span in E. destruct E as (rs' & Hr & Hs & He).
        constructor.
        -- apply (f_equal (@List.length ascii)) in Hr.
           rewrite length_app in Hr. lia.
        -- destruct (List.length (m_text m)); cbn [hits]; apply Hweak.
      * apply Hweak.
    + eapply Forall_impl; [|apply (IH (x :: sn) n)].
      cbn [List.length]. intros m (H1 & H2 & H3). lia.
Qed.

Lemma scan_sorted : forall (rs sn : text) (skip : nat),
  StronglySorted (fun a b => m_end a <= m_start b) (hits (scan r sn rs skip)).
Proof.
  induction rs as [|x rs IH]; intros sn skip.
  - destruct skip; cbn [scan hits]; [|constructor].
    destruct (match_here r sn []) as [m|]; cbn [hits]; repeat constructor.
  - destruct skip as [|n]; cbn [scan]; [|apply IH].
    destruct (match_here r sn (x :: rs)) as [m|] eqn:E; cbn [hits]; [|apply IH].
    apply match_here_span in E. destruct E as (rs' & Hr & Hs & He).
    destruct (List.length (m_text m)) as [|n] eqn:El; cbn [hits].
    + constructor; [apply IH|].
      eapply Forall_impl; [|apply (scan_bounds rs (x :: sn) 0)].
      cbn [List.length]. intros b (H1 & _). lia.
    + constructor; [apply IH|].
      eapply Forall_impl; [|apply (scan_bounds rs (x :: sn) n)].
      cbn [List.length]. intros b (H1 & _). lia.
Qed.

Lemma sorted_snoc : forall (R : found -> found -> Prop) (l : list found) (a : found),
  StronglySorted R l -> Forall (fun b => R b a) l ->
  StronglySorted R (l ++ [a]).
Proof.
  intros R l a Hs Hf. induction Hs as [|b l Hs IH Hb]; cbn [app].
  - repeat constructor.
  - inversion Hf as [|b0 l0 Hba Hf']; subst b0 l0.
    constructor; [now apply IH|].
    apply Forall_app. split; [exact Hb|]. now constructor.
Qed.

(** When no match is empty, [reversed(finditer(...))] runs over strictly
    falling end offsets, all inside the text. *)
Lemma reversed_matches_fall : forall content : text,
  (forall sn rs m, match_here r sn rs = Some m -> m_start m < m_end m) ->
  StronglySorted (fun a b => m_end b < m_end a) (rev (finditer r content)) /\
  Forall (fun m => m_end m <= List.length content) (rev (finditer r content)).
Proof.
  intros content Hne. unfold finditer, pieces.
  assert (Hpos : Forall (fun m => m_start m < m_end m)
                        (hits (scan r [] content 0))).
  { pose proof (scan_hits r content [] 0) as Hh.
    induction Hh as [|p ps Hp _ IH]; cbn [hits]; [constructor|].
    destruct p as [c|m]; [exact IH|].
    destruct Hp as (sn & rs & Hm). constructor; [now apply (Hne sn rs)|exact IH]. }
  pose proof (scan_sorted content [] 0) as Hs.
  pose proof (scan_bounds content [] 0) as Hb.
  split.
  - induction Hs as [|a l Hs IH Ha]; cbn [rev]; [constructor|].
    inversion Hpos as [|a0 l0 Hpa Hpl]; subst a0 l0.
    inversion Hb as [|a0 l0 _ Hbl]; subst a0 l0.
    apply sorted_snoc; [now apply IH|].
    apply Forall_rev.
    rewrite Forall_forall in Ha, Hpl |- *.
    intros b Hin. specialize (Ha b Hin). specialize (Hpl b Hin). lia.
  - apply Forall_rev. eapply Forall_impl; [|exact Hb].
    cbn [List.length]. intros m (_ & _ & H). exact H.
Qed.

End ScanOrder.

(** ** No match of the method and function patterns is empty *)

Section NonEmptyMatches.

Lemma den_seqs_elem : forall (a : list re) (r : re) (b : list re) (c c' : cfg),
  den (seqs (a ++ r :: b)) c c' ->
  exists m1 m2,
    den r m1 m2 /\
    List.length (rest m1) <= List.length (rest c) /\
    List.length (rest c') <= List.length (rest m2).
Proof.
  intros a r b c c' H.
  apply den_seqs_app in H. destruct H as (m1 & Ha & Hb).
  cbn [seqs den] in Hb. destruct Hb as (m2 & Hr & Htail).
  exists m1, m2. split; [exact Hr|].
  apply den_span in Ha. destruct Ha as (w1 & Hw1 & _).
  apply den_span in Htail. destruct Htail as (w2 & Hw2 & _).
  rewrite Hw1, Hw2, !length_app. lia.
Qed.

Lemma den_lit_shrinks : forall (s : text) (m1 m2 : cfg),
  s <> [] -> den (lit s) m1 m2 ->
  List.length (rest m2) < List.length (rest m1).
Proof.
  intros s m1 m2 Hs H. apply den_lit in H. destruct H as (Hr & _ & _).
  rewrite Hr, length_app. destruct s; [now elim Hs|]. cbn [List.length]. lia.
Qed.

Lemma den_plus_shrinks : forall (k : cls) (m1 m2 : cfg),
  den (plus k) m1 m2 -> List.length (rest m2) < List.length (rest m1).
Proof.
  intros k m1 m2 H. unfold plus in H. cbn [den] in H.
  destruct H as (m & (x & Hx & _ & _ & _) & (w & _ & Hw & _ & _)).
  rewrite Hx, Hw. cbn [List.length]. rewrite length_app. lia.
Qed.

Lemma match_here_den : forall (r : re) (sn rs : text) (m : found),
  match_here r sn rs = Some m ->
  exists c', den r (Cfg sn rs []) c' /\
             List.length rs = List.length (m_text m) + List.length (rest c') /\
             m_end m = m_start m + List.length (m_text m).
Proof.
  intros r sn rs m H. unfold match_here in H.
  destruct (exec r (Cfg sn rs []) Some) as [c'|] eqn:E; [|discriminate].
  injection H as <-. cbn [m_text m_start m_end].
  apply exec_sound in E. destruct E as (c1 & Hd & Hk). injection Hk as ->.
  exists c'. split; [exact Hd|].
  apply den_span in Hd. destruct Hd as (w & Hr & Hs). cbn [rest seen] in Hr, Hs.
  rewrite (consumed_span (Cfg sn rs []) c' w Hs).
  split; [now rewrite Hr, length_app|].
  rewrite Hs, length_app, length_rev. lia.
Qed.

Lemma method_match_not_empty : forall (sn rs : text) (m : found),
  match_here FixAll.method_pattern sn rs = Some m -> m_start m < m_end m.
Proof.
  intros sn rs m H. apply match_here_den in H.
  destruct H as (c' & Hd & Hlen & He).
  unfold FixAll.method_pattern in Hd. cbn [den] in Hd.
  destruct Hd as (mg & Hd & ->). cbn [rest] in Hlen.
  apply (den_seqs_elem [] (lit (str "async "))) in Hd.
  destruct Hd as (m1 & m2 & Hl & H1 & H2).
  apply den_lit_shrinks in Hl; [|discriminate].
  cbn [rest] in H1. lia.
Qed.

Lemma func_match_not_empty : forall (sn rs : text) (m : found),
  match_here RemainingNulls.func_pattern sn rs = Some m -> m_start m < m_end m.
Proof.
  intros sn rs m H. apply match_here_den in H.
  destruct H as (c' & Hd & Hlen & He).
  unfold RemainingNulls.func_pattern in Hd. cbn [den] in Hd.
  destruct Hd as (mg & Hd & ->). cbn [rest] in Hlen.
  apply (den_seqs_elem
           [opt (seqs [lit (str "async"); plus CSpace]);
            opt (Alt (seqs [lit (str "public"); plus CSpace])
                (Alt (seqs [lit (str "private"); plus CSpace])
                     (seqs [lit (str "protected"); plus CSpace])))]
           (plus CWord)) in Hd.
  destruct Hd as (m1 & m2 & Hl & H1 & H2).
  apply den_plus_shrinks in Hl.
  cbn [rest] in H1. lia.
Qed.

End NonEmptyMatches.

(** X1.  The claim of tail-to-head order does hold in fix-all-tenant-nulls.py
    and fix-remaining-nulls.py: whatever the window checks decide, the loops over
    [reversed(...)] leave the snapshot with the guard text standing at end
    offsets of matches found on the snapshot, and nowhere else. *)
Lemma guards_land_at_snapshot_offsets : forall content : text,
  (exists chosen,
     incl chosen (map m_end (finditer FixAll.method_pattern content)) /\
     FixAll.insert_guards content (finditer FixAll.method_pattern content)
     = Spec.weave null_check chosen 0 content) /\
  (exists chosen,
     incl chosen (map m_end (finditer RemainingNulls.method_pattern content)) /\
     RemainingNulls.insert_guards content
       (finditer RemainingNulls.method_pattern content)
     = Spec.weave null_check chosen 0 content) /\
  (exists chosen,
     incl chosen (map m_end (finditer RemainingNulls.func_pattern content)) /\
     RemainingNulls.insert_param_checks content
       (finditer RemainingNulls.func_pattern content)
     = Spec.weave RemainingNulls.param_check chosen 0 content).
Proof.
  intros content.
  assert (Hgen : forall (ins : text) (r : re) (step : text -> found -> text),
    (forall cur m, step cur m = cur \/ step cur m = insert_at (m_end m) ins cur) ->
    (forall sn rs m, match_here r sn rs = Some m -> m_start m < m_end m) ->
    exists chosen,
      incl chosen (map m_end (finditer r content)) /\
      fold_left step (rev (finditer r content)) content
      = Spec.weave ins chosen 0 content).
  { intros ins r step Hstep Hne.
    destruct (reversed_matches_fall r content Hne) as [Hsort Hlen].
    destruct (tail_to_head_lands ins step content Hstep
                (rev (finditer r content)) [] Hsort Hlen)
      as (chosen & Hincl & Heq); [intros o m []|].
    rewrite weave_nothing in Heq.
    exists chosen. split; [|exact Heq].
    intros o Ho. apply Hincl in Ho. rewrite app_nil_r, map_rev in Ho.
    now apply in_rev in Ho. }
  split; [|split].
  - apply (Hgen null_check FixAll.method_pattern FixAll.insert_guard);
      [|exact method_match_not_empty].
    intros cur m. unfold FixAll.insert_guard.
    destruct (contains guard_test _ || contains guard_binding _);
      [now left|now right].
  - apply (Hgen null_check RemainingNulls.method_pattern
             RemainingNulls.insert_guard); [|exact method_match_not_empty].
    intros cur m. unfold RemainingNulls.insert_guard.
    destruct (contains guard_test _); [now left|now right].
  - apply (Hgen RemainingNulls.param_check RemainingNulls.func_pattern
             RemainingNulls.insert_param_check); [|exact func_match_not_empty].
    intros cur m. unfold RemainingNulls.insert_param_check.
    destruct (contains RemainingNulls.param_test _); [now left|now right].
Qed.

(** ** Completeness of the matcher *)

Section MatcherComplete.

Lemma many_complete : forall (k : cls) (w rs' sn : text)
                             (kont : text -> text -> option cfg),
  forallb (cls_ok k) w = true ->
  kont (rev w ++ sn) rs' <> None ->
  many k sn (w ++ rs') kont <> None.
Proof.
  intros k w rs'. induction w as [|x w IH]; intros sn kont Hw Hk.
  - cbn [rev app] in Hk |- *. destruct rs' as [|y rs]; [exact Hk|].
    cbn [many]. destruct (cls_ok k y); [|exact Hk].
    destruct (many k (y :: sn) rs kont); [discriminate|exact Hk].
  - cbn [forallb] in Hw. apply andb_prop in Hw. destruct Hw as [Hx Hw].
    cbn [app many]. rewrite Hx.
    assert (Hin : many k (x :: sn) (w ++ rs') kont <> None).
    { apply IH; [exact Hw|]. cbn [rev] in Hk. now rewrite <- app_assoc in Hk. }
    destruct (many k (x :: sn) (w ++ rs') kont); [discriminate|now elim Hin].
Qed.

(** Whenever the pattern allows a run that the continuation accepts, the
    matcher answers. *)
Lemma exec_complete : forall (r : re) (c c' : cfg) (kont : cfg -> option cfg),
  den r c c' -> kont c' <> None -> exec r c kont <> None.
Proof.
  induction r as [|k|a IHa b IHb|a IHa b IHb|k|n r IH|w|];
    intros c c' kont H Hk; cbn [den] in H; cbn [exec].
  - now subst.
  - destruct H as (x & Hr & Hx & Hs & Hc). rewrite Hr, Hx.
    destruct c' as [sn' rs' cs']. cbn [rest seen caps] in *. now subst.
  - destruct H as (m & Ha & Hb).
    apply (IHa c m); [exact Ha|]. now apply (IHb m c').
  - destruct (exec a c kont) eqn:E; [discriminate|].
    destruct H as [H|H]; [now elim (IHa c c' kont H Hk)|now apply (IHb c c')].
  - destruct H as (w & Hw & Hr & Hs & Hc). rewrite Hr.
    apply many_complete; [exact Hw|].
    destruct c' as [sn' rs' cs']. cbn [rest seen caps] in *. now subst.
  - destruct H as (m & Hm & ->). now apply (IH c m).
  - destruct H as [-> Hf]. now rewrite Hf.
  - destruct H as [-> Hx]. now rewrite Hx.
Qed.

Lemma den_lit_intro : forall (s sn b : text) (cs : list (nat * text)),
  den (lit s) (Cfg sn (s ++ b) cs) (Cfg (rev s ++ sn) b cs).
Proof.
  induction s as [|x s IH]; intros sn b cs; cbn [lit den app rev].
  - reflexivity.
  - exists (Cfg (x :: sn) (s ++ b) cs). split.
    + exists x. cbn [rest seen caps cls_ok]. now rewrite Ascii.eqb_refl.
    + rewrite <- app_assoc. apply IH.
Qed.

(** The DTO patterns match every text of their shape, wherever it stands. *)
Lemma dto_match_complete : forall (head x sn b : text),
  dto_shape head x ->
  match_here (dto_pattern head) sn (x ++ b) <> None.
Proof.
  intros head x sn b (ws & Hws & ->). unfold match_here.
  assert (H : exec (dto_pattern head)
                   (Cfg sn ((head ++ ws ++ str "string;") ++ b) []) Some
              <> None).
  { apply (exec_complete _ _
             (Cfg (rev (head ++ ws ++ str "string;") ++ sn) b []));
      [|discriminate].
    unfold dto_pattern. cbn [seqs den].
    exists (Cfg (rev head ++ sn) ((ws ++ str "string;") ++ b) []). split.
    { rewrite <- app_assoc. apply den_lit_intro. }
    exists (Cfg (rev ws ++ rev head ++ sn) (str "string;" ++ b) []). split.
    { exists ws. cbn [rest seen caps cls_ok]. repeat split; [exact Hws|].
      now rewrite <- app_assoc. }
    exists (Cfg (rev (head ++ ws ++ str "string;") ++ sn) b []). split;
      [|reflexivity].
    rewrite !rev_app_distr, <- !app_assoc. apply den_lit_intro. }
  destruct (exec (dto_pattern head) _ Some); [discriminate|now elim H].
Qed.

(** And they match nothing else. *)
Lemma dto_match_sound : forall (head sn rs : text) (m : found),
  match_here (dto_pattern head) sn rs = Some m -> dto_shape head (m_text m).
Proof.
  intros head sn rs m H. unfold match_here in H.
  destruct (exec (dto_pattern head) (Cfg sn rs []) Some) as [c'|] eqn:E;
    [|discriminate].
  injection H as <-. cbn [m_text].
  apply exec_sound in E. destruct E as (c1 & Hd & Hk). injection Hk as ->.
  pose proof (den_span _ _ _ Hd) as (w & Hr & Hs).
  rewrite (consumed_span (Cfg sn rs []) c' w Hs).
  unfold dto_pattern in Hd. cbn [seqs den] in Hd.
  destruct Hd as (m1 & Hh & m2 & (ws & Hws & Hrw & _ & _) & m3 & Ht & ->).
  apply den_lit in Hh. destruct Hh as (Hr1 & _ & _).
  apply den_lit in Ht. destruct Ht as (Hr3 & _ & _).
  exists ws. split; [exact Hws|].
  cbn [rest] in Hr, Hr1. rewrite Hr1, Hrw, Hr3 in Hr.
  rewrite !app_assoc in Hr. apply app_inv_tail in Hr.
  rewrite <- Hr. now rewrite <- !app_assoc.
Qed.

End MatcherComplete.

(** ** The DTO rewrite does not match its own output *)

Section DtoSecondRun.

Lemma dto_match_not_empty : forall (head sn rs : text) (m : found),
  match_here (dto_pattern head) sn rs = Some m -> m_text m <> [].
Proof.
  intros head sn rs m H. apply dto_match_sound in H.
  destruct H as (ws & _ & ->). intros E.
  apply app_eq_nil in E. destruct E as [_ E].
  apply app_eq_nil in E. destruct E as [_ E]. discriminate E.
Qed.

(** A character the scan left alone stands where the matcher failed. *)
Lemma scan_plain_attempted : forall (r : re),
  (forall sn rs m, match_here r sn rs = Some m -> m_text m <> []) ->
  forall (rs sn : text) (skip : nat) (ps1 : list piece) (x : ascii)
         (ps2 : list piece),
  scan r sn rs skip = ps1 ++ Plain x :: ps2 ->
  exists sn', match_here r sn' (x :: concat (map piece_src ps2)) = None.
Proof.
  intros r Hne. induction rs as [|y rs IH]; intros sn skip ps1 x ps2 H.
  - destruct skip; cbn [scan] in H.
    + destruct (match_here r sn []);
        destruct ps1 as [|p [|q ps1]]; discriminate H.
    + destruct ps1; discriminate H.
  - destruct skip as [|n]; cbn [scan] in H; [|now apply IH in H].
    destruct (match_here r sn (y :: rs)) as [m|] eqn:E.
    + destruct (List.length (m_text m)) as [|n] eqn:El.
      * apply Hne in E. destruct (m_text m); [now elim E|discriminate El].
      * destruct ps1 as [|p ps1]; [discriminate H|].
        injection H as _ H. now apply IH in H.
    + destruct ps1 as [|p ps1].
      * injection H as <- <-. exists sn.
        rewrite (scan_src r rs (y :: sn) 0). exact E.
      * injection H as _ H. now apply IH in H.
Qed.

Lemma space_is_plain : forall c : ascii, is_space c = true -> plain_char c = true.
Proof.
  intros [[] [] [] [] [] [] [] []] H; try reflexivity; vm_compute in H;
    discriminate H.
Qed.

(** The body of a match, up to its final [;], has neither [?] nor [;]. *)
Lemma dto_shape_clean : forall (head x : text),
  dto_head head -> dto_shape head x ->
  exists y, x = y ++ [";"%char] /\ forallb plain_char y = true.
Proof.
  intros head x Hh (ws & Hws & ->).
  exists (head ++ ws ++ str "string"). split.
  - rewrite <- !app_assoc. reflexivity.
  - rewrite !forallb_app. 
    assert (Hw : forallb plain_char ws = true).
    { rewrite forallb_forall in Hws |- *. intros c Hc.
      apply space_is_plain. now apply Hws. }
    rewrite Hw. destruct Hh as [-> | ->]; reflexivity.
Qed.

(** The replacement text cannot begin a stretch without [?] that ends in
    [;]. *)
Lemma optional_not_clean : forall (y out b : text),
  forallb plain_char y = true ->
  FixAll.dto_optional ++ out = y ++ ";"%char :: b -> False.
Proof.
  intros y out b Hy H. unfold FixAll.dto_optional, str in H.
  cbn [list_ascii_of_string app] in H.
  do 9 (destruct y as [|c y];
        [discriminate H
        |injection H as <- H; cbn in Hy; try discriminate Hy]).
Qed.

Lemma clean_run_is_plain : forall (y : text) (ps : list piece) (b : text),
  forallb plain_char y = true ->
  concat (map (render (fun _ => FixAll.dto_optional)) ps) = y ++ ";"%char :: b ->
  exists ps2, ps = map Plain (y ++ [";"%char]) ++ ps2.
Proof.
  induction y as [|c y IH]; intros ps b Hy H.
  - destruct ps as [|[d|m] ps]; cbn [map concat render app] in H.
    + discriminate H.
    + injection H as -> _. now exists ps.
    + now apply (optional_not_clean [] _ b) in H.
  - destruct ps as [|[d|m] ps]; cbn [map concat render app] in H.
    + discriminate H.
    + injection H as -> H. cbn [forallb] in Hy.
      apply andb_prop in Hy. destruct Hy as [_ Hy].
      destruct (IH ps b Hy H) as (ps2 & ->). now exists ps2.
    + now apply (optional_not_clean (c :: y) _ b) in H.
Qed.

(** No text of a DTO shape begins inside the replacement text. *)
Lemma shape_not_inside_optional : forall (head ws a l out b : text),
  dto_head head ->
  FixAll.dto_optional = a ++ l -> l <> [] ->
  (head ++ ws ++ str "string;") ++ b = l ++ out -> False.
Proof.
  intros head ws a l out b Hh Ha Hl H.
  unfold FixAll.dto_optional, str in Ha. cbn [list_ascii_of_string] in Ha.
  destruct Hh as [-> | ->]; unfold str in H;
    cbn [list_ascii_of_string app] in H;
    do 26 (destruct a as [|? a];
           [cbn [app] in Ha; subst l; try (now elim Hl);
            cbn [app] in H; discriminate H
           |cbn [app] in Ha; try discriminate Ha; injection Ha as _ Ha]).
Qed.

(** A text of a DTO shape standing in the output of the rewrite is made of
    characters the scan left alone, one after the other. *)
Lemma shape_in_output_is_plain_run : forall (head x : text),
  dto_head head -> dto_shape head x ->
  forall (ps : list piece) (a b : text),
  concat (map (render (fun _ => FixAll.dto_optional)) ps) = a ++ x ++ b ->
  exists ps1 ps2, ps = ps1 ++ map Plain x ++ ps2.
Proof.
  intros head x Hh Hx.
  destruct (dto_shape_clean head x Hh Hx) as (y & Hxy & Hy).
  induction ps as [|p ps IH]; intros a b H.
  - cbn [map concat] in H. symmetry in H.
    apply app_eq_nil in H. destruct H as [_ H].
    apply app_eq_nil in H. destruct H as [H _]. subst x.
    now destruct y.
  - destruct p as [c|m]; cbn [map concat render] in H.
    + destruct a as [|a0 a].
      * cbn [app] in H. rewrite Hxy, <- app_assoc in H. cbn [app] in H.
        destruct (clean_run_is_plain y (Plain c :: ps) b Hy H) as (ps2 & ->).
        exists [], ps2. now rewrite Hxy.
      * cbn [app] in H. injection H as _ H.
        destruct (IH a b H) as (ps1 & ps2 & ->).
        now exists (Plain c :: ps1), ps2.
    + apply app_eq_app in H. destruct H as (l & [[Ha Hl]|[Ha Hl]]).
      * destruct l as [|l0 l].
        -- cbn [app] in Hl.
           destruct (IH [] b (eq_sym Hl)) as (ps1 & ps2 & ->).
           now exists (Hit m :: ps1), ps2.
        -- exfalso. destruct Hx as (ws & _ & ->).
           apply (shape_not_inside_optional head ws a (l0 :: l)
                    (concat (map (render (fun _ => FixAll.dto_optional)) ps)) b Hh Ha);
             [discriminate|exact Hl].
      * destruct (IH l b Hl) as (ps1 & ps2 & ->).
        now exists (Hit m :: ps1), ps2.
Qed.

End DtoSecondRun.

Section DtoIdempotence.

Lemma src_app : forall ps qs : list piece,
  concat (map piece_src (ps ++ qs))
  = concat (map piece_src ps) ++ concat (map piece_src qs).
Proof. intros ps qs. now rewrite map_app, concat_app. Qed.

Lemma src_plain : forall x : text, concat (map piece_src (map Plain x)) = x.
Proof.
  induction x as [|c x IH]; [reflexivity|].
  cbn [map concat piece_src render app]. now rewrite IH.
Qed.

(** A DTO shape found in the output of a rewrite stood in its input, at a
    place where the pattern of that rewrite did not match. *)
Lemma shape_in_output_was_in_input : forall (head ph x t : text),
  dto_head head -> dto_shape head x ->
  occurs x (sub (dto_pattern ph) (fun _ => FixAll.dto_optional) t) ->
  exists a b sn,
    t = a ++ x ++ b /\ match_here (dto_pattern ph) sn (x ++ b) = None.
Proof.
  intros head ph x t Hh Hx (a & b & H). unfold sub, pieces in H.
  destruct (shape_in_output_is_plain_run head x Hh Hx _ a b H)
    as (ps1 & ps2 & Hps).
  pose proof (scan_src (dto_pattern ph) t [] 0) as Hsrc. cbn [skipn] in Hsrc.
  rewrite Hps, !src_app, src_plain in Hsrc.
  exists (concat (map piece_src ps1)), (concat (map piece_src ps2)).
  destruct x as [|x0 x].
  { destruct (dto_shape_clean head [] Hh Hx) as ([|? ?] & E & _);
      discriminate E. }
  cbn [map app] in Hps.
  destruct (scan_plain_attempted (dto_pattern ph) (dto_match_not_empty ph)
              t [] 0 ps1 x0 (map Plain x ++ ps2) Hps) as (sn & Hnone).
  rewrite src_app, src_plain in Hnone.
  exists sn. split; [now rewrite Hsrc|exact Hnone].
Qed.

(** A rewrite leaves no text of its own shape... *)
Lemma own_shape_gone : forall (head x t : text),
  dto_head head -> dto_shape head x ->
  ~ occurs x (sub (dto_pattern head) (fun _ => FixAll.dto_optional) t).
Proof.
  intros head x t Hh Hx Hocc.
  destruct (shape_in_output_was_in_input head head x t Hh Hx Hocc)
    as (a & b & sn & _ & Hnone).
  now apply (dto_match_complete head x sn b Hx).
Qed.

(** ... and creates none of the other shape. *)
Lemma other_shape_not_created : forall (head ph x t : text),
  dto_head head -> dto_shape head x ->
  occurs x (sub (dto_pattern ph) (fun _ => FixAll.dto_optional) t) ->
  occurs x t.
Proof.
  intros head ph x t Hh Hx Hocc.
  destruct (shape_in_output_was_in_input head ph x t Hh Hx Hocc)
    as (a & b & _ & Ht & _).
  now exists a, b.
Qed.

(** Where no text of its shape stands, a rewrite changes nothing. *)
Lemma sub_fixed_without_shape : forall (head : text) (f : found -> text) (t : text),
  (forall x, dto_shape head x -> ~ occurs x t) ->
  sub (dto_pattern head) f t = t.
Proof.
  intros head f t Hfree. unfold sub, pieces.
  pose proof (scan_src (dto_pattern head) t [] 0) as Hsrc. cbn [skipn] in Hsrc.
  pose proof (scan_hits (dto_pattern head) t [] 0) as Hhits.
  rewrite <- Hsrc at 2.
  assert (Hno : forall m, ~ In (Hit m) (scan (dto_pattern head) [] t 0)).
  { intros m Hin.
    rewrite Forall_forall in Hhits. pose proof (Hhits _ Hin) as (sn & rs & Hm).
    apply dto_match_sound in Hm. apply (Hfree _ Hm).
    apply in_split in Hin. destruct Hin as (l1 & l2 & Hl).
    rewrite Hl, src_app in Hsrc. cbn [map concat piece_src render] in Hsrc.
    now exists (concat (map piece_src l1)), (concat (map piece_src l2)). }
  clear Hsrc Hhits.
  induction (scan (dto_pattern head) [] t 0) as [|p ps IH]; [reflexivity|].
  destruct p as [c|m].
  - cbn [map concat render piece_src]. f_equal. apply IH.
    intros m Hin. apply (Hno m). now right.
  - elim (Hno m). now left.
Qed.

Lemma text_eqb_refl : forall a : text, text_eqb a a = true.
Proof.
  intros a. unfold text_eqb. now destruct (list_eq_dec ascii_dec a a).
Qed.

(** Running the two rewrites, in either order, on their own output changes
    nothing. *)
Lemma dto_rewrites_settle : forall (h1 h2 t : text),
  dto_head h1 -> dto_head h2 ->
  let once := sub (dto_pattern h2) (fun _ => FixAll.dto_optional)
                (sub (dto_pattern h1) (fun _ => FixAll.dto_optional) t) in
  sub (dto_pattern h2) (fun _ => FixAll.dto_optional)
    (sub (dto_pattern h1) (fun _ => FixAll.dto_optional) once) = once.
Proof.
  intros h1 h2 t H1 H2 once.
  assert (E1 : sub (dto_pattern h1) (fun _ => FixAll.dto_optional) once = once).
  { apply sub_fixed_without_shape. intros x Hx Hocc.
    apply (other_shape_not_created h1 h2 x _ H1 Hx) in Hocc.
    now apply (own_shape_gone h1 x t H1 Hx). }
  rewrite E1. apply sub_fixed_without_shape. intros x Hx.
  now apply own_shape_gone.
Qed.

(** X4.  The DTO patterns do not match their own output: a second run of
    [fix_dto_file] or [fix_types_file] on a file they have written writes
    nothing. *)
Lemma dto_second_run_writes_nothing : forall content new_content : text,
  (FixAll.fix_dto_file content = Write new_content ->
   FixAll.fix_dto_file new_content = NoWrite) /\
  (FixAll.fix_types_file content = Write new_content ->
   FixAll.fix_types_file new_content = NoWrite).
Proof.
  intros content new_content. split.
  - unfold FixAll.fix_dto_file at 1.
    match goal with |- (if text_eqb ?x _ then _ else _) = _ -> _ =>
      destruct (text_eqb x content) end; [discriminate|].
    intros H. injection H as <-. unfold FixAll.fix_dto_file.
    change FixAll.dto_bang with (dto_pattern (str "tenantId!:")).
    change FixAll.dto_plain with (dto_pattern (str "tenantId:")).
    rewrite (dto_rewrites_settle (str "tenantId!:") (str "tenantId:") content);
      [|now left|now right].
    now rewrite text_eqb_refl.
  - unfold FixAll.fix_types_file at 1.
    match goal with |- (if text_eqb ?x _ then _ else _) = _ -> _ =>
      destruct (text_eqb x content) end; [discriminate|].
    intros H. injection H as <-. unfold FixAll.fix_types_file.
    change FixAll.dto_bang with (dto_pattern (str "tenantId!:")).
    change FixAll.dto_plain with (dto_pattern (str "tenantId:")).
    rewrite (dto_rewrites_settle (str "tenantId:") (str "tenantId!:") content);
      [|now right|now left].
    now rewrite text_eqb_refl.
Qed.

End DtoIdempotence.

(** * Further properties of the scripts *)

Lemma guard_not_inserted_twice_witness :
  FixAll.insert_guard
    (FixAll.insert_guard Fixtures.nested_user_controller Samples.some_match)
    Samples.some_match
  = FixAll.insert_guard Fixtures.nested_user_controller Samples.some_match.
Proof.
  apply (guard_not_inserted_twice Fixtures.nested_user_controller
           Samples.some_match).
  vm_compute. lia.
Defined.

Lemma comparing_fixers_write_only_changes_witness :
  FixAll.fix_dto_file Samples.dto_file = Write Samples.dto_file_fixed /\
  Samples.dto_file_fixed <> Samples.dto_file.
Proof.
  assert (H : FixAll.fix_dto_file Samples.dto_file = Write Samples.dto_file_fixed)
    by (vm_compute; reflexivity).
  split; [exact H|].
  exact (proj1 (proj2 (comparing_fixers_write_only_changes
                         Samples.dto_path Samples.dto_file
                         Samples.dto_file_fixed)) H).
Defined.

Lemma dto_second_run_writes_nothing_witness :
  FixAll.fix_dto_file Samples.dto_file_fixed = NoWrite.
Proof.
  apply (proj1 (dto_second_run_writes_nothing Samples.dto_file
                  Samples.dto_file_fixed)).
  vm_compute. reflexivity.
Defined.

(** X5.  Whatever [fix_dto_file] and [fix_types_file] read, the text they
    leave in the file (the text written, or the text read when nothing is
    written) holds no field of the shapes [tenantId!:\s*string;] and
    [tenantId:\s*string;] any more. *)
Theorem dto_fields_all_optional : forall (content head x : text),
  dto_head head -> dto_shape head x ->
  let left_by (o : outcome text) :=
    match o with
    | NoWrite => content
    | Write new_content => new_content
    end in
  ~ occurs x (left_by (FixAll.fix_dto_file content)) /\
  ~ occurs x (left_by (FixAll.fix_types_file content)).
Proof.
  intros content head x Hh Hx left_by.
  assert (Hgen : forall h1 h2, dto_head h1 -> dto_head h2 -> h1 <> h2 ->
    ~ occurs x (sub (dto_pattern h2) (fun _ => FixAll.dto_optional)
                  (sub (dto_pattern h1) (fun _ => FixAll.dto_optional) content))).
  { intros h1 h2 H1 H2 Hne Hocc.
    assert (Hcase : head = h2 \/ head = h1).
    { destruct Hh as [-> | ->], H1 as [-> | ->], H2 as [-> | ->];
        try (now left); try (now right); now elim Hne. }
    destruct Hcase as [-> | ->].
    - now apply (own_shape_gone h2 x _ H2 Hx) in Hocc.
    - apply (other_shape_not_created h1 h2 x _ H1 Hx) in Hocc.
      now apply (own_shape_gone h1 x content H1 Hx) in Hocc. }
  split.
  - unfold left_by, FixAll.fix_dto_file.
    change FixAll.dto_bang with (dto_pattern (str "tenantId!:")).
    change FixAll.dto_plain with (dto_pattern (str "tenantId:")).
    pose proof (Hgen (str "tenantId!:") (str "tenantId:")) as Hg.
    unfold text_eqb.
    destruct (list_eq_dec ascii_dec _ content) as [E|E].
    + rewrite <- E. apply Hg; [now left|now right|discriminate].
    + apply Hg; [now left|now right|discriminate].
  - unfold left_by, FixAll.fix_types_file.
    change FixAll.dto_bang with (dto_pattern (str "tenantId!:")).
    change FixAll.dto_plain with (dto_pattern (str "tenantId:")).
    pose proof (Hgen (str "tenantId:") (str "tenantId!:")) as Hg.
    unfold text_eqb.
    destruct (list_eq_dec ascii_dec _ content) as [E|E].
    + rewrite <- E. apply Hg; [now right|now left|discriminate].
    + apply Hg; [now right|now left|discriminate].
Qed.

Lemma dto_fields_all_optional_witness :
  occurs (str "tenantId!: string;") Samples.dto_file /\
  ~ occurs (str "tenantId!: string;")
      match FixAll.fix_dto_file Samples.dto_file with
      | NoWrite => Samples.dto_file
      | Write new_content => new_content
      end.
Proof.
  split.
  - exists (str "export class PaymentDto {" ++ [nl] ++ str "  "),
           ([nl] ++ str "  amount: number;" ++ [nl] ++ str "}").
    reflexivity.
  - exact (proj1 (dto_fields_all_optional Samples.dto_file (str "tenantId!:")
                    (str "tenantId!: string;")
                    (or_introl eq_refl)
                    (ex_intro _ (str " ") (conj eq_refl eq_refl)))).
Defined.


(** ** The boundary locator and the loop of add-missing-tenant-id.py *)

Section LocatorEdges.

Lemma first_brace_skips_head : forall (first first' : text) (rest : list text)
                                      (n j : nat),
  1 <= j ->
  AddMissing.first_brace (first :: rest) j n
  = AddMissing.first_brace (first' :: rest) j n.
Proof.
  intros first first' rest. induction n as [|n IH]; intros j Hj;
    cbn [AddMissing.first_brace]; [reflexivity|].
  destruct j as [|j]; [lia|]. cbn [nth_error].
  destruct (nth_error rest j) as [line|]; [|reflexivity].
  destruct (has_char "{"%char line); [reflexivity|]. apply IH. lia.
Qed.

Lemma scan_back_skips_head : forall (first first' : text) (rest : list text)
                                    (n i : nat),
  n <= i ->
  AddMissing.scan_back (first :: rest) i n
  = AddMissing.scan_back (first' :: rest) i n.
Proof.
  intros first first' rest. induction n as [|n IH]; intros i Hn;
    cbn [AddMissing.scan_back]; [reflexivity|].
  destruct i as [|i]; [lia|]. cbn [nth_error].
  destruct (nth_error rest i) as [line|]; [|reflexivity].
  unfold AddMissing.brace_after. cbn [List.length].
  rewrite (first_brace_skips_head first first' rest _ (S i)) by lia.
  rewrite (IH (S i - 1)) by lia. reflexivity.
Qed.

Lemma scan_back_in_range : forall (lines : list text) (n i : nat),
  i < List.length lines -> AddMissing.scan_back lines i n <> IndexError.
Proof.
  intros lines. induction n as [|n IH]; intros i Hi;
    cbn [AddMissing.scan_back]; [discriminate|].
  destruct (nth_error lines i) as [line|] eqn:E;
    [|apply nth_error_None in E; lia].
  assert (Hrec : AddMissing.scan_back lines (i - 1) n <> IndexError)
    by (apply IH; lia).
  destruct (AddMissing.is_declaration line); [|exact Hrec].
  destruct (AddMissing.brace_after lines i); [discriminate|exact Hrec].
Qed.

End LocatorEdges.

(** X6.  The locator never reads the first line of the file: whatever
    stands there, a method header included, the answer for every diagnostic
    line is the same. *)
Theorem locator_never_reads_first_line :
  forall (first first' : text) (rest : list text) (error_line : nat),
  AddMissing.find_method_start (first :: rest) error_line
  = AddMissing.find_method_start (first' :: rest) error_line.
Proof.
  intros first first' rest L. unfold AddMissing.find_method_start.
  apply scan_back_skips_head. lia.
Qed.

(** X7.  The locator raises [IndexError] exactly for a diagnostic line
    number that is at least 2 and lies beyond the end of the file; line
    numbers 0 and 1 give "not found" even on an empty file. *)
Theorem locator_raises_iff : forall (lines : list text) (error_line : nat),
  (AddMissing.find_method_start lines error_line = IndexError <->
   2 <= error_line /\ List.length lines < error_line) /\
  (error_line <= 1 ->
   AddMissing.find_method_start lines error_line = Ok None).
Proof.
  intros lines L. unfold AddMissing.find_method_start. split.
  2:{ intros H1. replace (L - 1 - (L - 100)) with 0 by lia. reflexivity. }
  destruct (le_lt_dec 2 L) as [H2|H2].
  - destruct (L - 1 - (L - 100)) as [|n] eqn:En.
    + lia.
    + cbn [AddMissing.scan_back].
      destruct (nth_error lines (L - 1)) as [line|] eqn:E.
      * assert (Hin : L - 1 < List.length lines)
          by (apply nth_error_Some; rewrite E; discriminate).
        split; [|lia]. intros H. exfalso.
        assert (Hrec : AddMissing.scan_back lines (L - 1 - 1) n <> IndexError)
          by (apply scan_back_in_range; lia).
        destruct (AddMissing.is_declaration line); [|now apply Hrec].
        destruct (AddMissing.brace_after lines (L - 1));
          [discriminate|now apply Hrec].
      * apply nth_error_None in E. split; [lia|reflexivity].
  - replace (L - 1 - (L - 100)) with 0 by lia. cbn [AddMissing.scan_back].
    split; [discriminate|lia].
Qed.

(** X8.  When the brace the locator finds stands on the last line of the
    file, the boundary is one past the end: the step reads [lines[len]] for
    the indentation and raises [IndexError], and so does [fix_file] for that
    diagnostic; nothing is written. *)
Theorem boundary_past_end_raises :
  forall (lines : list text) (methods_fixed : list nat) (error_line : nat),
  AddMissing.find_method_start lines error_line = Ok (Some (List.length lines)) ->
  existsb (Nat.eqb (List.length lines)) methods_fixed = false ->
  AddMissing.fix_step (lines, methods_fixed) error_line = IndexError /\
  (methods_fixed = [] -> AddMissing.fix_file lines [error_line] = IndexError).
Proof.
  intros lines fixed L Hfind Hfixed.
  assert (Hstep : AddMissing.fix_step (lines, fixed) L = IndexError).
  { unfold AddMissing.fix_step. rewrite Hfind, Hfixed.
    unfold AddMissing.find_method_start in Hfind.
    apply scan_back_some in Hfind; [|lia].
    destruct Hfind as (h & j & _ & _ & _ & Hk & _).
    replace (negb (List.length lines =? 0)) with true
      by (destruct (Nat.eqb_spec (List.length lines) 0); [lia|reflexivity]).
    cbn [negb andb]. unfold AddMissing.lines_slice.
    replace (Nat.min (List.length lines + 50) (List.length lines)
             - List.length lines) with 0 by lia.
    cbn [firstn].
    replace (nth_error lines (List.length lines)) with (@None text)
      by (symmetry; apply nth_error_None; lia).
    reflexivity. }
  split; [exact Hstep|].
  intros ->. unfold AddMissing.fix_file.
  cbn [AddMissing.sorted fold_right AddMissing.insert_sorted AddMissing.fix_loop].
  now rewrite Hstep.
Qed.

Lemma boundary_past_end_raises_witness :
  AddMissing.fix_step (Samples.call_at_end, []) 2 = IndexError /\
  AddMissing.fix_file Samples.call_at_end [2] = IndexError.
Proof.
  destruct (boundary_past_end_raises Samples.call_at_end [] 2) as [H1 H2].
  - vm_compute. reflexivity.
  - reflexivity.
  - split; [exact H1|exact (H2 eq_refl)].
Defined.

Section InsertionsOnly.

Variable P : text -> Prop.

Lemma grown_refl : forall l : list text, grown P l l.
Proof. induction l; constructor; assumption. Qed.

Lemma grown_trans : forall l2 l3 : list text,
  grown P l2 l3 -> forall l1, grown P l1 l2 -> grown P l1 l3.
Proof.
  induction 1 as [|x l2 l3 H IH|y l2 l3 Hy H IH]; intros l1 H1.
  - exact H1.
  - inversion H1 as [|x0 a b Ha|y0 a b Hy0 Ha]; subst.
    + apply grown_keep. now apply IH.
    + apply grown_add; [exact Hy0|]. now apply IH.
  - apply grown_add; [exact Hy|]. now apply IH.
Qed.

Lemma grown_insert : forall (k : nat) (y : text) (l : list text),
  P y -> grown P l (AddMissing.list_insert k y l).
Proof.
  unfold AddMissing.list_insert.
  induction k as [|k IH]; intros y l Hy.
  - cbn [firstn skipn app]. apply grown_add; [exact Hy|apply grown_refl].
  - destruct l as [|x l]; cbn [firstn skipn app].
    + apply grown_add; [exact Hy|apply grown_nil].
    + apply grown_keep. now apply IH.
Qed.

Lemma grown_length : forall l l' : list text,
  grown P l l' ->
  List.length l <= List.length l' /\
  (List.length l = List.length l' -> l = l').
Proof.
  induction 1 as [|x l l' H [IH1 IH2]|y l l' Hy H [IH1 IH2]]; cbn [List.length].
  - split; [lia|reflexivity].
  - split; [lia|]. intros E. f_equal. apply IH2. lia.
  - split; [lia|]. intros E. lia.
Qed.

End InsertionsOnly.

Section FixLoopFacts.

Lemma list_insert_length : forall (k : nat) (y : text) (l : list text),
  List.length (AddMissing.list_insert k y l) = S (List.length l).
Proof.
  intros k y l. unfold AddMissing.list_insert.
  rewrite length_app. cbn [List.length].
  rewrite <- (firstn_skipn k l) at 3. rewrite length_app. lia.
Qed.

Lemma existsb_eqb_in : forall (k : nat) (l : list nat),
  existsb (Nat.eqb k) l = false -> ~ In k l.
Proof.
  intros k l H Hin. induction l as [|x l IH]; [exact Hin|].
  cbn [existsb] in H. apply orb_false_elim in H. destruct H as [Hx Hl].
  destruct Hin as [->|Hin]; [now rewrite Nat.eqb_refl in Hx|now apply IH].
Qed.

(** One diagnostic: the lines only grow, by a declaration entry, and the
    set of fixed methods keeps its entries distinct. *)
Lemma fix_step_grows : forall (lines lines' : list text) (fixed fixed' : list nat)
                              (error_line : nat),
  AddMissing.fix_step (lines, fixed) error_line = Ok (lines', fixed') ->
  grown declaration_entry lines lines' /\
  List.length lines' + List.length fixed = List.length lines + List.length fixed' /\
  List.length fixed' <= S (List.length fixed) /\
  (NoDup fixed -> NoDup fixed').
Proof.
  intros lines lines' fixed fixed' L H. unfold AddMissing.fix_step in H.
  assert (Hsame : (lines, fixed) = (lines', fixed') ->
    grown declaration_entry lines lines' /\
    List.length lines' + List.length fixed = List.length lines + List.length fixed' /\
    List.length fixed' <= S (List.length fixed) /\
    (NoDup fixed -> NoDup fixed')).
  { intros E. injection E as <- <-.
    split; [apply grown_refl|]. split; [lia|]. split; [lia|trivial]. }
  destruct (AddMissing.find_method_start lines L) as [[k|]|]; try discriminate;
    [|apply Hsame; congruence].
  destruct (negb (k =? 0)); cbn [andb] in H;
    [|apply Hsame; congruence].
  destruct (existsb (Nat.eqb k) fixed) eqn:Ek; cbn [negb] in H;
    [apply Hsame; congruence|].
  destruct (negb (contains (str "const tenantId") _));
    [|apply Hsame; congruence].
  destruct (nth_error lines k) as [first|]; [|discriminate].
  injection H as <- <-.
  split; [apply grown_insert; now eexists|].
  split; [rewrite list_insert_length; cbn [List.length]; lia|].
  split; [cbn [List.length]; lia|].
  intros Hnd. constructor; [now apply existsb_eqb_in|exact Hnd].
Qed.

Lemma fix_loop_grows : forall (error_lines : list nat)
                              (lines lines' : list text) (fixed fixed' : list nat),
  AddMissing.fix_loop (lines, fixed) error_lines = Ok (lines', fixed') ->
  grown declaration_entry lines lines' /\
  List.length lines' + List.length fixed = List.length lines + List.length fixed' /\
  List.length fixed' <= List.length error_lines + List.length fixed /\
  (NoDup fixed -> NoDup fixed').
Proof.
  induction error_lines as [|L more IH]; intros lines lines' fixed fixed' H;
    cbn [AddMissing.fix_loop] in H.
  - injection H as <- <-.
    split; [apply grown_refl|]. split; [lia|]. split; [cbn; lia|trivial].
  - destruct (AddMissing.fix_step (lines, fixed) L) as [[l1 f1]|] eqn:E;
      [|discriminate].
    apply fix_step_grows in E. destruct E as (G1 & L1 & B1 & N1).
    apply IH in H. destruct H as (G2 & L2 & B2 & N2).
    split; [exact (grown_trans declaration_entry l1 lines' G2 lines G1)|].
    split; [lia|]. split; [cbn [List.length]; lia|]. intros Hnd. auto.
Qed.

Lemma insert_sorted_length : forall (x : nat) (l : list nat),
  List.length (AddMissing.insert_sorted x l) = S (List.length l).
Proof.
  intros x. induction l as [|y l IH]; cbn [AddMissing.insert_sorted];
    [reflexivity|].
  destruct (x <=? y); cbn [List.length]; [reflexivity|]. now rewrite IH.
Qed.

Lemma sorted_length : forall l : list nat,
  List.length (AddMissing.sorted l) = List.length l.
Proof.
  induction l as [|x l IH]; [reflexivity|].
  cbn [AddMissing.sorted fold_right]. fold (AddMissing.sorted l).
  rewrite insert_sorted_length. cbn [List.length]. now rewrite IH.
Qed.

Lemma insert_sorted_swap : forall (x y : nat) (l : list nat),
  AddMissing.insert_sorted x (AddMissing.insert_sorted y l)
  = AddMissing.insert_sorted y (AddMissing.insert_sorted x l).
Proof.
  intros x y. induction l as [|z l IH]; cbn [AddMissing.insert_sorted].
  - destruct (Nat.leb_spec x y), (Nat.leb_spec y x); try reflexivity; try lia.
    replace y with x by lia. reflexivity.
  - destruct (Nat.leb_spec y z), (Nat.leb_spec x z);
      cbn [AddMissing.insert_sorted];
      repeat match goal with
             | |- context [?a <=? ?b] => destruct (Nat.leb_spec a b)
             end; try reflexivity; try lia.
    + replace y with x by lia. reflexivity.
    + now rewrite IH.
Qed.

Lemma sorted_of_permutation : forall a b : list nat,
  Permutation a b -> AddMissing.sorted a = AddMissing.sorted b.
Proof.
  induction 1 as [|x a b H IH|x y a|a b c H1 IH1 H2 IH2].
  - reflexivity.
  - cbn [AddMissing.sorted fold_right]. fold (AddMissing.sorted a).
    fold (AddMissing.sorted b). now rewrite IH.
  - cbn [AddMissing.sorted fold_right]. apply insert_sorted_swap.
  - now rewrite IH1.
Qed.

End FixLoopFacts.

(** X9.  Whatever [fix_file] of add-missing-tenant-id.py writes is the file
    it read with declaration entries put in: no line is lost, changed or
    moved, at least one entry is added, and at most one per diagnostic. *)
Theorem fix_file_only_inserts_declarations :
  forall (lines out : list text) (error_lines : list nat),
  AddMissing.fix_file lines error_lines = Ok (Write out) ->
  grown declaration_entry lines out /\
  List.length lines < List.length out <= List.length lines + List.length error_lines.
Proof.
  intros lines out errs H. unfold AddMissing.fix_file in H.
  destruct (AddMissing.fix_loop (lines, []) (AddMissing.sorted errs))
    as [[l' f']|] eqn:E; [|discriminate].
  apply fix_loop_grows in E. destruct E as (G & L & B & _).
  rewrite sorted_length in B. cbn [List.length] in L, B.
  unfold AddMissing.lines_eqb in H.
  destruct (list_eq_dec (list_eq_dec ascii_dec) l' lines) as [Eq|Ne];
    cbn [negb] in H; [discriminate|].
  injection H as <-. split; [exact G|].
  destruct (grown_length declaration_entry lines l' G) as [Hle Heq].
  split; [|lia].
  destruct (Nat.eq_dec (List.length lines) (List.length l')) as [El|Nl]; [|lia].
  elim Ne. symmetry. now apply Heq.
Qed.

Lemma fix_file_only_inserts_declarations_witness :
  grown declaration_entry Fixtures.three_methods
    (AddMissing.list_insert 8 Fixtures.declaration_line Fixtures.three_methods) /\
  List.length Fixtures.three_methods
  < List.length (AddMissing.list_insert 8 Fixtures.declaration_line
                   Fixtures.three_methods)
  <= List.length Fixtures.three_methods + List.length [9].
Proof.
  apply (fix_file_only_inserts_declarations Fixtures.three_methods
           (AddMissing.list_insert 8 Fixtures.declaration_line
              Fixtures.three_methods) [9]).
  vm_compute. reflexivity.
Defined.

(** X10.  The order in which the diagnostics of a file arrive does not
    matter to [fix_file]: it sorts them first. *)
Theorem fix_file_ignores_diagnostic_order :
  forall (lines : list text) (error_lines error_lines' : list nat),
  Permutation error_lines error_lines' ->
  AddMissing.fix_file lines error_lines = AddMissing.fix_file lines error_lines'.
Proof.
  intros lines e e' H. unfold AddMissing.fix_file.
  now rewrite (sorted_of_permutation e e' H).
Qed.

Lemma fix_file_ignores_diagnostic_order_witness :
  AddMissing.fix_file Fixtures.three_methods [9; 3; 6]
  = AddMissing.fix_file Fixtures.three_methods [3; 6; 9].
Proof.
  apply (fix_file_ignores_diagnostic_order Fixtures.three_methods).
  apply perm_trans with (l' := [3; 9; 6]); [apply perm_swap|].
  apply perm_skip. apply perm_swap.
Defined.

(** ** Lines in and lines out of the rewriting loops *)

Section LineFacts.

Lemma split_nl_not_empty : forall s : text, split_nl s <> [].
Proof.
  induction s as [|c s IH]; cbn [split_nl]; [discriminate|].
  destruct (Ascii.eqb c nl); [discriminate|].
  destruct (split_nl s); discriminate.
Qed.

Lemma split_nl_lines_clean : forall s : text,
  Forall (fun l => has_char nl l = false) (split_nl s).
Proof.
  induction s as [|c s IH]; cbn [split_nl].
  - repeat constructor.
  - destruct (Ascii.eqb c nl) eqn:E.
    + constructor; [reflexivity|exact IH].
    + destruct (split_nl s) as [|l ls]; [repeat constructor|].
      * unfold has_char. cbn [existsb]. rewrite Ascii.eqb_sym, E. reflexivity.
      * inversion IH as [|l0 ls0 Hl Hls]; subst.
        constructor; [|exact Hls].
        unfold has_char in Hl |- *. cbn [existsb].
        rewrite Ascii.eqb_sym, E. exact Hl.
Qed.

Lemma join_split : forall s : text, join_nl (split_nl s) = s.
Proof.
  induction s as [|c s IH]; cbn [split_nl]; [reflexivity|].
  destruct (Ascii.eqb c nl) eqn:E.
  - apply Ascii.eqb_eq in E. subst c.
    pose proof (split_nl_not_empty s) as Hne.
    cbn [join_nl]. destruct (split_nl s) as [|l ls]; [now elim Hne|].
    cbn [app]. now rewrite IH.
  - pose proof (split_nl_not_empty s) as Hne.
    destruct (split_nl s) as [|l ls]; [now elim Hne|].
    cbn [join_nl] in IH |- *. destruct ls; cbn [app]; now rewrite IH.
Qed.

Lemma split_app_clean : forall (l rest : text),
  has_char nl l = false ->
  split_nl (l ++ nl :: rest) = l :: split_nl rest.
Proof.
  induction l as [|c l IH]; intros rest Hl; cbn [app split_nl].
  - now rewrite Ascii.eqb_refl.
  - unfold has_char in Hl. cbn [existsb] in Hl.
    apply orb_false_elim in Hl. destruct Hl as [Hc Hl].
    rewrite Ascii.eqb_sym, Hc. now rewrite IH.
Qed.

Lemma split_clean : forall l : text, has_char nl l = false -> split_nl l = [l].
Proof.
  induction l as [|c l IH]; intros Hl; cbn [split_nl]; [reflexivity|].
  unfold has_char in Hl. cbn [existsb] in Hl.
  apply orb_false_elim in Hl. destruct Hl as [Hc Hl].
  rewrite Ascii.eqb_sym, Hc. now rewrite IH.
Qed.

Lemma split_join : forall ls : list text,
  ls <> [] -> Forall (fun l => has_char nl l = false) ls ->
  split_nl (join_nl ls) = ls.
Proof.
  induction ls as [|l ls IH]; intros Hne Hall; [now elim Hne|].
  inversion Hall as [|l0 ls0 Hl Hls]; subst.
  cbn [join_nl]. destruct ls as [|l' ls].
  - now apply split_clean.
  - rewrite split_app_clean by exact Hl. f_equal.
    apply IH; [discriminate|exact Hls].
Qed.

Lemma has_char_app : forall (c : ascii) (a b : text),
  has_char c (a ++ b) = has_char c a || has_char c b.
Proof. intros c a b. unfold has_char. apply existsb_app. Qed.

(** [str.replace] brings in no character that neither the line nor the new
    text has. *)
Lemma replace_brings_no_char : forall (c : ascii) (old new s : text) (skip : nat),
  has_char c new = false -> has_char c s = false ->
  has_char c (replace_from old new s skip) = false.
Proof.
  intros c old new. induction s as [|x s IH]; intros skip Hn Hs;
    cbn [replace_from]; [reflexivity|].
  unfold has_char in Hs. cbn [existsb] in Hs.
  apply orb_false_elim in Hs. destruct Hs as [Hx Hs].
  destruct skip as [|k]; [|now apply IH].
  destruct (starts_with old (x :: s)).
  - rewrite has_char_app, Hn. now apply IH.
  - unfold has_char. cbn [existsb]. rewrite Hx. now apply IH.
Qed.

Lemma step_line_clean : forall (st : bool) (line : text),
  has_char nl line = false ->
  has_char nl (snd (Rewriter.step st line)) = false /\
  has_char nl (snd (ReconRewriter.step st line)) = false.
Proof.
  intros st line H.
  assert (Hr : has_char nl (replace unsafe_expr safe_name line) = false)
    by (apply replace_brings_no_char; [reflexivity|exact H]).
  split.
  - unfold Rewriter.step.
    destruct (contains guard_test line); [exact H|].
    destruct st; [exact H|]. cbn [snd].
    destruct (contains unsafe_expr line && _); [exact Hr|exact H].
  - unfold ReconRewriter.step.
    destruct (contains guard_test line || contains guard_binding line);
      [exact H|].
    destruct (st && _); [exact H|]. cbn [snd].
    destruct (negb st && _); [exact Hr|exact H].
Qed.

Lemma step_keeps_safe_line : forall (st : bool) (line : text),
  contains unsafe_expr line = false ->
  snd (Rewriter.step st line) = line /\ snd (ReconRewriter.step st line) = line.
Proof.
  intros st line H. split.
  - unfold Rewriter.step.
    destruct (contains guard_test line); [reflexivity|].
    destruct st; [reflexivity|]. now rewrite H.
  - unfold ReconRewriter.step.
    destruct (contains guard_test line || contains guard_binding line);
      [reflexivity|].
    destruct (st && _); [reflexivity|]. rewrite H.
    now rewrite andb_false_r.
Qed.

Lemma runs_keep_shape : forall (lines : list text) (st : bool),
  Forall (fun l => has_char nl l = false) lines ->
  (List.length (Rewriter.run st lines) = List.length lines /\
   Forall (fun l => has_char nl l = false) (Rewriter.run st lines)) /\
  (List.length (ReconRewriter.run st lines) = List.length lines /\
   Forall (fun l => has_char nl l = false) (ReconRewriter.run st lines)).
Proof.
  induction lines as [|l ls IH]; intros st Hall.
  - repeat split; constructor.
  - inversion Hall as [|l0 ls0 Hl Hls]; subst.
    destruct (step_line_clean st l Hl) as [H1 H2].
    cbn [Rewriter.run ReconRewriter.run].
    destruct (Rewriter.step st l) as [st1 o1].
    destruct (ReconRewriter.step st l) as [st2 o2]. cbn [snd] in H1, H2.
    destruct (IH st1 Hls) as [[L1 F1] _].
    destruct (IH st2 Hls) as [_ [L2 F2]].
    cbn [List.length]. repeat split; try lia; now constructor.
Qed.

Lemma runs_keep_safe_lines : forall (lines : list text) (st : bool) (i : nat)
                                    (line : text),
  nth_error lines i = Some line -> contains unsafe_expr line = false ->
  nth_error (Rewriter.run st lines) i = Some line /\
  nth_error (ReconRewriter.run st lines) i = Some line.
Proof.
  induction lines as [|l ls IH]; intros st i line Hi Hs;
    [destruct i; discriminate|].
  cbn [Rewriter.run ReconRewriter.run].
  pose proof (step_keeps_safe_line st l) as Hk.
  destruct (Rewriter.step st l) as [st1 o1].
  destruct (ReconRewriter.step st l) as [st2 o2]. cbn [snd] in Hk.
  destruct i as [|i]; cbn [nth_error] in Hi |- *.
  - injection Hi as ->. destruct (Hk Hs) as [-> ->]. now split.
  - split; [now apply (IH st1)|now apply (IH st2)].
Qed.

End LineFacts.

(** X11.  Both rewriting passes ([split('\n')], the loop, ['\n'.join]) keep
    the number of lines of the file, and emit every line that does not hold
    [user.tenantId] exactly as it is, at its own line number. *)
Theorem rewriting_keeps_other_lines : forall (content : text) (i : nat) (line : text),
  List.length (split_nl (Rewriter.rewrite content))
  = List.length (split_nl content) /\
  List.length (split_nl (ReconRewriter.rewrite content))
  = List.length (split_nl content) /\
  (nth_error (split_nl content) i = Some line ->
   contains unsafe_expr line = false ->
   nth_error (split_nl (Rewriter.rewrite content)) i = Some line /\
   nth_error (split_nl (ReconRewriter.rewrite content)) i = Some line).
Proof.
  intros content i line.
  pose proof (split_nl_lines_clean content) as Hclean.
  pose proof (split_nl_not_empty content) as Hne.
  destruct (runs_keep_shape (split_nl content) false Hclean)
    as [[L1 F1] [L2 F2]].
  assert (E1 : split_nl (Rewriter.rewrite content)
               = Rewriter.run false (split_nl content)).
  { unfold Rewriter.rewrite. apply split_join; [|exact F1].
    intros E. rewrite E in L1. cbn in L1.
    destruct (split_nl content); [now elim Hne|discriminate]. }
  assert (E2 : split_nl (ReconRewriter.rewrite content)
               = ReconRewriter.run false (split_nl content)).
  { unfold ReconRewriter.rewrite. apply split_join; [|exact F2].
    intros E. rewrite E in L2. cbn in L2.
    destruct (split_nl content); [now elim Hne|discriminate]. }
  rewrite E1, E2. split; [exact L1|]. split; [exact L2|].
  intros Hi Hs. now apply runs_keep_safe_lines.
Qed.

Lemma rewriting_keeps_other_lines_witness :
  nth_error (split_nl (Rewriter.rewrite Fixtures.nested_user_once)) 9
  = Some (str "}") /\
  nth_error (split_nl (ReconRewriter.rewrite Fixtures.nested_user_once)) 9
  = Some (str "}").
Proof.
  apply (rewriting_keeps_other_lines Fixtures.nested_user_once 9 (str "}")).
  - vm_compute. reflexivity.
  - vm_compute. reflexivity.
Defined.

(** ** Files the fixers have no business with *)

Section FrameFacts.

Lemma contains_after : forall needle a b : text,
  contains needle b = true -> contains needle (a ++ b) = true.
Proof.
  intros needle. induction a as [|x a IH]; intros b H; [exact H|].
  cbn [app]. rewrite contains_unfold. rewrite (IH b H). apply orb_true_r.
Qed.

Lemma contains_within : forall needle a w b : text,
  contains needle w = true -> contains needle (a ++ w ++ b) = true.
Proof.
  intros needle a w b H. apply contains_after. now apply contains_more.
Qed.

Lemma hits_in : forall (m : found) (ps : list piece),
  In m (hits ps) -> In (Hit m) ps.
Proof.
  intros m. induction ps as [|p ps IH]; intros H; [exact H|].
  destruct p as [c|m']; cbn [hits] in H.
  - right. now apply IH.
  - destruct H as [->|H]; [now left|right; now apply IH].
Qed.

(** A match reported by a scan stands in the text scanned. *)
Lemma match_in_text : forall (r : re) (content : text) (m : found),
  In m (finditer r content) ->
  occurs (m_text m) content /\
  exists sn rs, match_here r sn rs = Some m.
Proof.
  intros r content m H. unfold finditer, pieces in H. apply hits_in in H.
  split.
  - pose proof (scan_src r content [] 0) as Hsrc. cbn [skipn] in Hsrc.
    apply in_split in H. destruct H as (l1 & l2 & Hl).
    rewrite Hl, src_app in Hsrc. cbn [map concat piece_src render] in Hsrc.
    now exists (concat (map piece_src l1)), (concat (map piece_src l2)).
  - pose proof (scan_hits r content [] 0) as Hh.
    rewrite Forall_forall in Hh. exact (Hh _ H).
Qed.

(** A pattern whose matches all hold some text finds nothing in a file that
    does not hold it. *)
Lemma no_text_no_match : forall (r : re) (s content : text),
  (forall sn rs m, match_here r sn rs = Some m -> contains s (m_text m) = true) ->
  contains s content = false ->
  finditer r content = [].
Proof.
  intros r s content Hm Hc.
  destruct (finditer r content) as [|m ms] eqn:E; [reflexivity|].
  destruct (match_in_text r content m) as [(a & b & Ht) (sn & rs & Hs)];
    [rewrite E; now left|].
  apply Hm in Hs. rewrite Ht, (contains_within s a _ b Hs) in Hc.
  discriminate Hc.
Qed.

Lemma match_here_text : forall (r : re) (sn rs : text) (m : found),
  match_here r sn rs = Some m ->
  exists c', den r (Cfg sn rs []) c' /\ rs = m_text m ++ rest c'.
Proof.
  intros r sn rs m H. unfold match_here in H.
  destruct (exec r (Cfg sn rs []) Some) as [c'|] eqn:E; [|discriminate].
  injection H as <-. cbn [m_text].
  apply exec_sound in E. destruct E as (c1 & Hd & Hk). injection Hk as ->.
  exists c'. split; [exact Hd|].
  apply den_span in Hd. destruct Hd as (w & Hr & Hs). cbn [rest seen] in Hr, Hs.
  now rewrite (consumed_span (Cfg sn rs []) c' w Hs).
Qed.

(** A literal of a sequence stands in every match of the sequence, with or
    without a group around it. *)
Lemma match_holds_literal : forall (a : list re) (s : text) (b : list re)
                                   (sn rs : text) (m : found),
  match_here (seqs (a ++ lit s :: b)) sn rs = Some m ->
  contains s (m_text m) = true.
Proof.
  intros a s b sn rs m H. apply match_here_text in H.
  destruct H as (c' & Hd & Hr).
  apply den_seqs_lit_inside in Hd. destruct Hd as (w1 & w2 & Hw & _ & _).
  cbn [rest] in Hw. rewrite Hr in Hw. apply app_inv_tail in Hw.
  rewrite Hw. apply contains_inside.
Qed.

Lemma grouped_match_holds_literal : forall (n : nat) (a : list re) (s : text)
                                           (b : list re) (sn rs : text) (m : found),
  match_here (Group n (seqs (a ++ lit s :: b))) sn rs = Some m ->
  contains s (m_text m) = true.
Proof.
  intros n a s b sn rs m H. apply match_here_text in H.
  destruct H as (c' & Hd & Hr). cbn [den] in Hd.
  destruct Hd as (mg & Hd & ->). cbn [rest] in Hr.
  apply den_seqs_lit_inside in Hd. destruct Hd as (w1 & w2 & Hw & _ & _).
  cbn [rest] in Hw. rewrite Hr in Hw. apply app_inv_tail in Hw.
  rewrite Hw. apply contains_inside.
Qed.

Lemma sub_without_match : forall (r : re) (f : found -> text) (content : text),
  finditer r content = [] -> sub r f content = content.
Proof.
  intros r f content H. unfold sub, finditer, pieces in *.
  pose proof (scan_src r content [] 0) as Hsrc. cbn [skipn] in Hsrc.
  rewrite <- Hsrc at 2. clear Hsrc.
  induction (scan r [] content 0) as [|p ps IH]; [reflexivity|].
  destruct p as [c|m]; cbn [hits] in H; [|discriminate].
  cbn [map concat render piece_src]. f_equal. now apply IH.
Qed.

End FrameFacts.

(** X12.  A file that does not hold the text [@CurrentUser() user: IUser]
    is left alone: [fix_controller_file] writes nothing, the guard insertion
    of the reconciliation fixer returns it unchanged, and so does
    [fix_any_file] for a path that is neither a DTO, an entity nor a service
    layer path. *)
Theorem files_without_marker_left_alone : forall content : text,
  contains (str "@CurrentUser() user: IUser") content = false ->
  FixAll.fix_controller_file content = NoWrite /\
  Recon.transformation content = content /\
  (forall file_path : text,
     contains (str "/dto/") file_path = false ->
     ends_with (str ".dto.ts") file_path = false ->
     contains (str "/entities/") file_path = false ->
     RemainingNulls.is_service_path file_path = false ->
     RemainingNulls.fix_any_file file_path content = NoWrite).
Proof.
  intros content Hc.
  assert (Hm : finditer FixAll.method_pattern content = []).
  { apply (no_text_no_match _ (str "@CurrentUser() user: IUser")); [|exact Hc].
    intros sn rs m H.
    apply (grouped_match_holds_literal 1
             [lit (str "async "); plus CWord; lit (str "(");
              Many (CNot "{"%char)]
             (str "@CurrentUser() user: IUser")) in H.
    exact H. }
  split; [|split].
  - unfold FixAll.fix_controller_file. now rewrite Hm.
  - unfold Recon.transformation. apply sub_without_match.
    apply (no_text_no_match _ (str "@CurrentUser() user: IUser")); [|exact Hc].
    intros sn rs m H. apply recon_match_shape in H.
    destruct H as (h & w & cl & -> & _ & _ & (_ & Hmk & _)).
    now apply contains_more.
  - intros path H1 H2 H3 H4.
    unfold RemainingNulls.fix_any_file, RemainingNulls.fixed_content,
      RemainingNulls.strategy5, RemainingNulls.method_pattern.
    rewrite Hm, H1, H2, H3, H4.
    cbn [RemainingNulls.insert_guards rev fold_left orb].
    now rewrite text_eqb_refl.
Qed.

Lemma files_without_marker_left_alone_witness :
  FixAll.fix_controller_file Samples.dto_file = NoWrite /\
  Recon.transformation Samples.dto_file = Samples.dto_file /\
  RemainingNulls.fix_any_file Fixtures.controller_path Samples.dto_file = NoWrite.
Proof.
  destruct (files_without_marker_left_alone Samples.dto_file) as (H1 & H2 & H3).
  - vm_compute. reflexivity.
  - split; [exact H1|]. split; [exact H2|].
    apply H3; vm_compute; reflexivity.
Defined.

(** ** fix_file of fix-remaining-tenant-id.py *)

Section HelperImportFacts.

Lemma render_const_hit : forall (repl : text) (ps : list piece),
  hits ps <> [] ->
  exists pre post,
    concat (map (render (fun _ => repl)) ps) = pre ++ repl ++ post.
Proof.
  intros repl. induction ps as [|p ps IH]; intros H; [now elim H|].
  destruct p as [c|m]; cbn [hits map concat render] in H |- *.
  - destruct (IH H) as (pre & post & ->). now exists (c :: pre), post.
  - now exists [], (concat (map (render (fun _ => repl)) ps)).
Qed.

Lemma import_patterns_need_entity : forall (filepath content : text),
  contains (str "user.entity") content = false ->
  RemainingTenantId.add_import filepath RemainingTenantId.user_import_patterns
    content = (content, false).
Proof.
  intros filepath content Hc.
  assert (Hnone : forall a : list re,
    search (Group 1 (seqs (a ++ lit (str "user.entity")
                             :: [One RemainingTenantId.quote; lit (str ";")])))
           content = None).
  { intros a. unfold search.
    rewrite (no_text_no_match _ (str "user.entity") content); [reflexivity| |exact Hc].
    intros sn rs m H. now apply grouped_match_holds_literal in H. }
  pose proof (Hnone [lit (str "import type { IUser } "); lit (str "from ");
                     One RemainingTenantId.quote; Many CDot]) as H1.
  pose proof (Hnone [lit (str "import { IUser } "); lit (str "from ");
                     One RemainingTenantId.quote; Many CDot]) as H2.
  pose proof (Hnone [lit (str "from "); One RemainingTenantId.quote;
                     Many CDot]) as H3.
  cbn [app] in H1, H2, H3.
  unfold RemainingTenantId.user_import_patterns,
    RemainingTenantId.from_user_entity.
  cbn [RemainingTenantId.add_import].
  rewrite H1, H2, H3. reflexivity.
Qed.

End HelperImportFacts.

(** X13.  Whenever [fix_file] of fix-remaining-tenant-id.py writes a file,
    the text written holds [getTenantId]: through the import it added, the
    replacement of a manual check, or because it was there before. *)
Theorem written_file_mentions_helper : forall filepath content new_content : text,
  RemainingTenantId.fix_file filepath content = Write new_content ->
  contains (str "getTenantId") new_content = true.
Proof.
  intros filepath content new_content H.
  unfold RemainingTenantId.fix_file in H.
  destruct (if negb (contains (str "getTenantId") content)
            then RemainingTenantId.add_import filepath
                   RemainingTenantId.user_import_patterns content
            else (content, false)) as [c1 m1] eqn:EA.
  unfold subn in H.
  destruct (0 <? List.length (finditer RemainingTenantId.manual_check c1)) eqn:En.
  - destruct (text_eqb _ content); cbn [andb negb] in H; [discriminate|].
    injection H as <-. unfold sub.
    destruct (render_const_hit RemainingTenantId.replacement
                (pieces RemainingTenantId.manual_check c1)) as (pre & post & ->).
    { unfold finditer in En. intros E. rewrite E in En. discriminate En. }
    apply contains_within. reflexivity.
  - destruct m1; cbn [andb] in H; [|discriminate].
    destruct (text_eqb c1 content); cbn [negb] in H; [discriminate|].
    injection H as <-.
    destruct (negb (contains (str "getTenantId") content)); [|discriminate EA].
    now apply import_added_once in EA.
Qed.

Lemma written_file_mentions_helper_witness :
  contains (str "getTenantId") Samples.checked_controller_fixed = true.
Proof.
  apply (written_file_mentions_helper Fixtures.controller_path
           Samples.checked_controller Samples.checked_controller_fixed).
  vm_compute. reflexivity.
Defined.

(** X14.  [fix_file] of fix-remaining-tenant-id.py writes nothing to a file
    that holds no manual check opening [if (!user.tenantId) {] and either
    mentions [getTenantId] already or holds no [user.entity] import. *)
Theorem file_without_check_or_import_left_alone : forall filepath content : text,
  contains (str "if (!user.tenantId) {") content = false ->
  contains (str "getTenantId") content = true \/
  contains (str "user.entity") content = false ->
  RemainingTenantId.fix_file filepath content = NoWrite.
Proof.
  intros filepath content Hcheck Himport.
  unfold RemainingTenantId.fix_file.
  assert (EA : (if negb (contains (str "getTenantId") content)
                then RemainingTenantId.add_import filepath
                       RemainingTenantId.user_import_patterns content
                else (content, false)) = (content, false)).
  { destruct Himport as [Hg|He]; [now rewrite Hg|].
    destruct (negb (contains (str "getTenantId") content)); [|reflexivity].
    now apply import_patterns_need_entity. }
  rewrite EA. unfold subn.
  rewrite (no_text_no_match RemainingTenantId.manual_check
             (str "if (!user.tenantId) {") content); [reflexivity| |exact Hcheck].
  intros sn rs m H. unfold RemainingTenantId.manual_check in H.
  exact (match_holds_literal [] (str "if (!user.tenantId) {")
           [Many CSpace; lit (str "throw new Error("); plus (CNot ")"%char);
            lit (str "SUPER_ADMIN"); plus (CNot ")"%char);
            lit (str ");"); Many CSpace; lit (str "}")] sn rs m H).
Qed.

Lemma file_without_check_or_import_left_alone_witness :
  RemainingTenantId.fix_file Samples.dto_path Samples.dto_file = NoWrite.
Proof.
  apply (file_without_check_or_import_left_alone Samples.dto_path Samples.dto_file).
  - vm_compute. reflexivity.
  - right. vm_compute. reflexivity.
Defined.

(** ** The compiler output parsers *)

Section TscLineFacts.

Import TscOutput.

Lemma den_plus : forall (k : cls) (c c' : cfg),
  den (plus k) c c' ->
  exists w, w <> [] /\ forallb (cls_ok k) w = true /\
            rest c = w ++ rest c' /\ seen c' = rev w ++ seen c /\
            caps c' = caps c.
Proof.
  intros k c c' H. unfold plus in H. cbn [den] in H.
  destruct H as (m & (x & Hr & Hk & Hs & Hc) & (w & Hw & Hr' & Hs' & Hc')).
  exists (x :: w). split; [discriminate|]. split; [|split; [|split]].
  - cbn [forallb]. now rewrite Hk, Hw.
  - rewrite Hr, Hr'. reflexivity.
  - rewrite Hs', Hs. cbn [rev]. now rewrite <- app_assoc.
  - now rewrite Hc', Hc.
Qed.

Lemma den_plus_intro : forall (k : cls) (w sn b : text) (cs : list (nat * text)),
  w <> [] -> forallb (cls_ok k) w = true ->
  den (plus k) (Cfg sn (w ++ b) cs) (Cfg (rev w ++ sn) b cs).
Proof.
  intros k w sn b cs Hne Hw. destruct w as [|x w]; [now elim Hne|].
  cbn [forallb] in Hw. apply andb_prop in Hw. destruct Hw as [Hx Hw].
  unfold plus. cbn [den]. exists (Cfg (x :: sn) (w ++ b) cs). split.
  - exists x. now repeat split.
  - exists w. cbn [seen rest caps rev]. rewrite <- app_assoc.
    now repeat split.
Qed.

Lemma den_line_tail : forall c c',
  den line_tail c c' ->
  exists d d2,
    digits d /\ digits d2 /\
    rest c = position_text d d2 ++ rest c' /\
    seen c' = rev (position_text d d2) ++ seen c /\
    caps c' = (2, d) :: caps c.
Proof.
  intros c c' H. unfold line_tail in H. cbn [seqs den] in H.
  destruct H as (m1 & H1 & m2 & (m2' & H2 & E2) & m3 & H3 & m4 & H4 & m5 & H5 & ->).
  apply den_lit in H1. destruct H1 as (R1 & S1 & C1).
  apply den_plus in H2. destruct H2 as (d & Hd & Fd & R2 & S2 & C2).
  apply den_lit in H3. destruct H3 as (R3 & S3 & C3).
  apply den_plus in H4. destruct H4 as (d2 & Hd2 & Fd2 & R4 & S4 & C4).
  apply den_lit in H5. destruct H5 as (R5 & S5 & C5).
  assert (Ec : consumed m1 m2' = d) by now apply consumed_span.
  subst m2. cbn [seen rest caps] in *.
  exists d, d2. split; [now split|]. split; [now split|].
  unfold position_text. split; [|split].
  - rewrite R1, R2, R3, R4, R5. now rewrite <- !app_assoc.
  - rewrite S5, S4, S3, S2, S1. rewrite !rev_app_distr, <- !app_assoc.
    reflexivity.
  - rewrite C5, C4, C3, Ec, C2, C1. reflexivity.
Qed.

Lemma den_position_tail : forall c c',
  den position_tail c c' ->
  exists d d2,
    digits d /\ digits d2 /\
    rest c = position_text d d2 ++ rest c' /\
    seen c' = rev (position_text d d2) ++ seen c /\
    caps c' = caps c.
Proof.
  intros c c' H. unfold position_tail in H. cbn [seqs den] in H.
  destruct H as (m1 & H1 & m2 & H2 & m3 & H3 & m4 & H4 & m5 & H5 & ->).
  apply den_lit in H1. destruct H1 as (R1 & S1 & C1).
  apply den_plus in H2. destruct H2 as (d & Hd & Fd & R2 & S2 & C2).
  apply den_lit in H3. destruct H3 as (R3 & S3 & C3).
  apply den_plus in H4. destruct H4 as (d2 & Hd2 & Fd2 & R4 & S4 & C4).
  apply den_lit in H5. destruct H5 as (R5 & S5 & C5).
  exists d, d2. split; [now split|]. split; [now split|].
  unfold position_text. split; [|split].
  - rewrite R1, R2, R3, R4, R5. now rewrite <- !app_assoc.
  - rewrite S5, S4, S3, S2, S1. rewrite !rev_app_distr, <- !app_assoc.
    reflexivity.
  - rewrite C5, C4, C3, C2, C1. reflexivity.
Qed.

Lemma den_line_tail_intro : forall (d d2 sn b : text) (cs : list (nat * text)),
  digits d -> digits d2 ->
  den line_tail (Cfg sn (position_text d d2 ++ b) cs)
      (Cfg (rev (position_text d d2) ++ sn) b ((2, d) :: cs)).
Proof.
  intros d d2 sn b cs [Hd Fd] [Hd2 Fd2].
  unfold line_tail, position_text. cbn [seqs den]. rewrite <- !app_assoc.
  eexists. split; [apply den_lit_intro|].
  eexists. split.
  { eexists. split; [apply den_plus_intro; assumption|reflexivity]. }
  cbn [seen rest caps].
  rewrite (consumed_span _ (Cfg (rev d ++ rev (str "(") ++ sn)
                                (str "," ++ d2 ++ diagnostic ++ b) cs) d)
    by reflexivity.
  eexists. split; [apply den_lit_intro|].
  eexists. split; [apply den_plus_intro; assumption|].
  eexists. split; [apply den_lit_intro|].
  rewrite !rev_app_distr, <- !app_assoc. reflexivity.
Qed.

Lemma den_position_tail_intro : forall (d d2 sn b : text) (cs : list (nat * text)),
  digits d -> digits d2 ->
  den position_tail (Cfg sn (position_text d d2 ++ b) cs)
      (Cfg (rev (position_text d d2) ++ sn) b cs).
Proof.
  intros d d2 sn b cs [Hd Fd] [Hd2 Fd2].
  unfold position_tail, position_text. cbn [seqs den]. rewrite <- !app_assoc.
  eexists. split; [apply den_lit_intro|].
  eexists. split; [apply den_plus_intro; assumption|].
  eexists. split; [apply den_lit_intro|].
  eexists. split; [apply den_plus_intro; assumption|].
  eexists. split; [apply den_lit_intro|].
  rewrite !rev_app_distr, <- !app_assoc. reflexivity.
Qed.

(** A run of characters passing a test ends where the first character
    failing it stands. *)
Lemma run_ends_at_stop : forall (p : ascii -> bool) (c : ascii) (a b x y : text),
  p c = false -> forallb p a = true -> forallb p b = true ->
  a ++ c :: x = b ++ c :: y -> a = b /\ x = y.
Proof.
  intros p c a. induction a as [|u a IH]; intros b x y Hc Ha Hb E.
  - destruct b as [|v b]; [now injection E|].
    cbn in E, Hb. injection E as -> _. apply andb_prop in Hb.
    destruct Hb as [Hb _]. congruence.
  - destruct b as [|v b].
    + cbn in E, Ha. injection E as -> _. apply andb_prop in Ha.
      destruct Ha as [Ha _]. congruence.
    + cbn in E, Ha, Hb. injection E as -> E.
      apply andb_prop in Ha. apply andb_prop in Hb.
      destruct (IH b x y Hc (proj2 Ha) (proj2 Hb) E) as [-> ->]. now split.
Qed.

Lemma position_text_unique : forall d d2 e e2 x y,
  digits d -> digits d2 -> digits e -> digits e2 ->
  position_text d d2 ++ x = position_text e e2 ++ y ->
  d = e /\ d2 = e2 /\ x = y.
Proof.
  intros d d2 e e2 x y [_ Fd] [_ Fd2] [_ Fe] [_ Fe2] E.
  unfold position_text in E. rewrite <- !app_assoc in E.
  change (str "(" ++ ?t) with ("("%char :: t) in E.
  injection E as E.
  change (str "," ++ ?t) with (","%char :: t) in E.
  apply (run_ends_at_stop (cls_ok digit) ","%char) in E;
    [|reflexivity|assumption|assumption].
  destruct E as [-> E].
  change (diagnostic ++ ?t) with (")"%char :: (skipn 1 diagnostic ++ t)) in E.
  apply (run_ends_at_stop (cls_ok digit) ")"%char) in E;
    [|reflexivity|assumption|assumption].
  destruct E as [-> E].
  change (skipn 1 diagnostic ++ x = skipn 1 diagnostic ++ y) in E.
  apply app_inv_head in E. now repeat split.
Qed.

End TscLineFacts.

Section TscMatchFacts.

Import TscOutput.

Lemma lazy_dots_hit : forall tail sn rs c,
  exec tail (Cfg sn rs [(1, rev sn)]) Some = Some c ->
  lazy_dots tail sn rs = Some c.
Proof. intros tail sn rs c H. destruct rs; cbn [lazy_dots]; now rewrite H. Qed.

Lemma lazy_dots_step : forall tail sn x rs,
  exec tail (Cfg sn (x :: rs) [(1, rev sn)]) Some = None ->
  cls_ok CDot x = true ->
  lazy_dots tail sn (x :: rs) = lazy_dots tail (x :: sn) rs.
Proof. intros tail sn x rs H Hx. cbn [lazy_dots]. now rewrite H, Hx. Qed.

Lemma lazy_dots_sound : forall tail rs sn c,
  lazy_dots tail sn rs = Some c ->
  exists a b,
    rs = a ++ b /\ forallb (cls_ok CDot) a = true /\
    exec tail (Cfg (rev a ++ sn) b [(1, rev (rev a ++ sn))]) Some = Some c.
Proof.
  intros tail. induction rs as [|x rs IH]; intros sn c H; cbn [lazy_dots] in H.
  - destruct (exec tail (Cfg sn [] [(1, rev sn)]) Some) as [c0|] eqn:E;
      [|discriminate].
    injection H as <-. exists [], []. now repeat split.
  - destruct (exec tail (Cfg sn (x :: rs) [(1, rev sn)]) Some) as [c0|] eqn:E.
    + injection H as <-. exists [], (x :: rs). now repeat split.
    + destruct (cls_ok CDot x) eqn:Ex; [|discriminate].
      apply IH in H. destruct H as (a & b & -> & Ha & H).
      exists (x :: a), b. cbn [rev forallb]. rewrite <- !app_assoc.
      split; [reflexivity|]. split; [now rewrite Ex|exact H].
Qed.

(** The two tails run alike: exactly on a position text, and to its end;
    only [line_tail] records the line digits. *)
Lemma exec_line_tail : forall d d2 sn b cs,
  digits d -> digits d2 ->
  exec line_tail (Cfg sn (position_text d d2 ++ b) cs) Some
  = Some (Cfg (rev (position_text d d2) ++ sn) b ((2, d) :: cs)).
Proof.
  intros d d2 sn b cs Hd Hd2.
  destruct (exec line_tail (Cfg sn (position_text d d2 ++ b) cs) Some)
    as [c|] eqn:E.
  - apply exec_sound in E. destruct E as (c' & Hden & [= ->]).
    apply den_line_tail in Hden.
    destruct Hden as (e & e2 & He & He2 & R & S & C).
    cbn [seen rest caps] in R, S, C.
    apply position_text_unique in R; try assumption.
    destruct R as (-> & -> & R). destruct c as [s r k].
    cbn [seen rest caps] in *. now subst.
  - exfalso. revert E. apply exec_complete with
      (c' := Cfg (rev (position_text d d2) ++ sn) b ((2, d) :: cs));
      [now apply den_line_tail_intro|discriminate].
Qed.

Lemma exec_position_tail : forall d d2 sn b cs,
  digits d -> digits d2 ->
  exec position_tail (Cfg sn (position_text d d2 ++ b) cs) Some
  = Some (Cfg (rev (position_text d d2) ++ sn) b cs).
Proof.
  intros d d2 sn b cs Hd Hd2.
  destruct (exec position_tail (Cfg sn (position_text d d2 ++ b) cs) Some)
    as [c|] eqn:E.
  - apply exec_sound in E. destruct E as (c' & Hden & [= ->]).
    apply den_position_tail in Hden.
    destruct Hden as (e & e2 & He & He2 & R & S & C).
    cbn [seen rest caps] in R, S, C.
    apply position_text_unique in R; try assumption.
    destruct R as (-> & -> & R). destruct c as [s r k].
    cbn [seen rest caps] in *. now subst.
  - exfalso. revert E. apply exec_complete with
      (c' := Cfg (rev (position_text d d2) ++ sn) b cs);
      [now apply den_position_tail_intro|discriminate].
Qed.

Lemma exec_line_tail_inv : forall sn rs cs c,
  exec line_tail (Cfg sn rs cs) Some = Some c ->
  exists d d2 b, digits d /\ digits d2 /\ rs = position_text d d2 ++ b.
Proof.
  intros sn rs cs c E. apply exec_sound in E.
  destruct E as (c' & Hden & _). apply den_line_tail in Hden.
  destruct Hden as (d & d2 & Hd & Hd2 & R & _). now exists d, d2, (rest c').
Qed.

Lemma exec_position_tail_inv : forall sn rs cs c,
  exec position_tail (Cfg sn rs cs) Some = Some c ->
  exists d d2 b, digits d /\ digits d2 /\ rs = position_text d d2 ++ b.
Proof.
  intros sn rs cs c E. apply exec_sound in E.
  destruct E as (c' & Hden & _). apply den_position_tail in Hden.
  destruct Hden as (d & d2 & Hd & Hd2 & R & _). now exists d, d2, (rest c').
Qed.

Lemma tails_fail_alike : forall sn rs cs,
  exec line_tail (Cfg sn rs cs) Some = None <->
  exec position_tail (Cfg sn rs cs) Some = None.
Proof.
  intros sn rs cs. split; intros H.
  - destruct (exec position_tail (Cfg sn rs cs) Some) as [c|] eqn:E;
      [|reflexivity].
    apply exec_position_tail_inv in E.
    destruct E as (d & d2 & b & Hd & Hd2 & ->).
    now rewrite exec_line_tail in H.
  - destruct (exec line_tail (Cfg sn rs cs) Some) as [c|] eqn:E;
      [|reflexivity].
    apply exec_line_tail_inv in E.
    destruct E as (d & d2 & b & Hd & Hd2 & ->).
    now rewrite exec_position_tail in H.
Qed.

Lemma tail_needs_paren : forall sn x rs cs,
  x <> "("%char -> exec line_tail (Cfg sn (x :: rs) cs) Some = None.
Proof.
  intros sn x rs cs Hx.
  destruct (exec line_tail (Cfg sn (x :: rs) cs) Some) as [c|] eqn:E;
    [|reflexivity].
  apply exec_line_tail_inv in E. destruct E as (d & d2 & b & _ & _ & E).
  unfold position_text in E. rewrite <- app_assoc in E.
  change (str "(" ++ ?t) with ("("%char :: t) in E. now injection E.
Qed.

Lemma lazy_dots_skips : forall (f : text) (sn b : text),
  forallb (cls_ok CDot) f = true -> has_char "("%char f = false ->
  lazy_dots line_tail sn (f ++ b) = lazy_dots line_tail (rev f ++ sn) b.
Proof.
  induction f as [|x f IH]; intros sn b Hf Hp; [reflexivity|].
  cbn [forallb] in Hf. apply andb_prop in Hf. destruct Hf as [Hx Hf].
  unfold has_char in Hp. cbn [existsb] in Hp. apply orb_false_elim in Hp.
  destruct Hp as [Hpx Hp].
  cbn [app]. rewrite lazy_dots_step; [| |exact Hx].
  - rewrite IH by assumption. cbn [rev]. now rewrite <- app_assoc.
  - apply tail_needs_paren. intros ->. discriminate Hpx.
Qed.

(** With or without the second group, the lazy group stops at the same
    place. *)
Lemma lazy_dots_alike : forall rs sn,
  match lazy_dots line_tail sn rs, lazy_dots position_tail sn rs with
  | Some c, Some c' =>
      seen c' = seen c /\ lookup 1 (caps c') = lookup 1 (caps c)
  | None, None => True
  | _, _ => False
  end.
Proof.
  induction rs as [|x rs IH]; intros sn; cbn [lazy_dots].
  - destruct (exec line_tail (Cfg sn [] [(1, rev sn)]) Some) as [c|] eqn:E.
    + apply exec_line_tail_inv in E. destruct E as (d & d2 & b & _ & _ & E).
      discriminate E.
    + apply tails_fail_alike in E. now rewrite E.
  - destruct (exec line_tail (Cfg sn (x :: rs) [(1, rev sn)]) Some)
      as [c|] eqn:E.
    + pose proof E as E'. apply exec_line_tail_inv in E'.
      destruct E' as (d & d2 & b & Hd & Hd2 & Ers). rewrite Ers in E |- *.
      rewrite exec_position_tail by assumption.
      rewrite exec_line_tail in E by assumption. injection E as <-.
      now split.
    + apply tails_fail_alike in E. rewrite E.
      destruct (cls_ok CDot x); [apply IH|exact I].
Qed.

Lemma match_line_alike : forall line,
  option_map (group 1) (match_line line_tail line)
  = option_map (group 1) (match_line position_tail line).
Proof.
  intros [|x rs]; [reflexivity|]. unfold match_line.
  destruct (cls_ok CDot x); [|reflexivity].
  pose proof (lazy_dots_alike rs [x]) as H.
  destruct (lazy_dots line_tail [x] rs) as [c|],
           (lazy_dots position_tail [x] rs) as [c'|];
    try contradiction; [|reflexivity].
  destruct H as [_ H]. cbn [option_map]. unfold group. cbn [m_caps].
  now rewrite H.
Qed.

End TscMatchFacts.

(** X15.  A line matched by the pattern of [get_errors] is a non-empty file
    part without newline, an opening parenthesis, a run of digits, a comma, a
    run of digits and the diagnostic text, with anything after it; group 1
    is the file part, group 2 the first run of digits, and the match spans
    the line up to the end of the diagnostic text. *)
Theorem matched_line_shape : forall (line : text) (m : found),
  TscOutput.match_line TscOutput.line_tail line = Some m ->
  exists column after : text,
    line = group 1 m ++ TscOutput.position_text (group 2 m) column ++ after /\
    m_text m = group 1 m ++ TscOutput.position_text (group 2 m) column /\
    m_start m = 0 /\ m_end m = List.length (m_text m) /\
    group 1 m <> [] /\ forallb (cls_ok CDot) (group 1 m) = true /\
    TscOutput.digits (group 2 m) /\ TscOutput.digits column.
Proof.
  intros [|x rs] m H; [discriminate|]. unfold TscOutput.match_line in H.
  destruct (cls_ok CDot x) eqn:Ex; [|discriminate].
  destruct (TscOutput.lazy_dots TscOutput.line_tail [x] rs) as [c|] eqn:E;
    [|discriminate].
  injection H as <-. apply lazy_dots_sound in E.
  destruct E as (a & b & -> & Ha & E).
  pose proof E as E'. apply exec_line_tail_inv in E'.
  destruct E' as (d & d2 & b' & Hd & Hd2 & ->).
  rewrite exec_line_tail in E by assumption. injection E as <-.
  unfold group. cbn [m_caps m_text m_start m_end caps seen lookup Nat.eqb].
  rewrite !rev_app_distr, !rev_involutive. cbn [rev app].
  exists d2, b'. rewrite <- !app_assoc. cbn [app].
  split; [reflexivity|]. split; [reflexivity|]. split; [reflexivity|].
  split; [repeat (rewrite ?length_app, ?length_rev; cbn [List.length]); lia|].
  split; [discriminate|].
  split; [cbn [forallb]; now rewrite Ex, Ha|]. now split.
Qed.

Lemma matched_line_shape_witness :
  exists column after : text,
    Samples.diagnostic_line
    = group 1 Samples.diagnostic_match
      ++ TscOutput.position_text (group 2 Samples.diagnostic_match) column
      ++ after /\
    m_text Samples.diagnostic_match
    = group 1 Samples.diagnostic_match
      ++ TscOutput.position_text (group 2 Samples.diagnostic_match) column /\
    m_start Samples.diagnostic_match = 0 /\
    m_end Samples.diagnostic_match
    = List.length (m_text Samples.diagnostic_match) /\
    group 1 Samples.diagnostic_match <> [] /\
    forallb (cls_ok CDot) (group 1 Samples.diagnostic_match) = true /\
    TscOutput.digits (group 2 Samples.diagnostic_match) /\
    TscOutput.digits column.
Proof.
  apply (matched_line_shape Samples.diagnostic_line Samples.diagnostic_match).
  vm_compute. reflexivity.
Defined.

(** X16.  A diagnostic line whose file part is not empty and holds neither a
    newline nor an opening parenthesis is parsed back into its parts: group 1
    is the file part and group 2 the line digits, whatever follows the
    diagnostic text. *)
Theorem diagnostic_line_parsed : forall (file line_digits column after : text),
  file <> [] -> forallb (cls_ok CDot) file = true ->
  has_char "("%char file = false ->
  TscOutput.digits line_digits -> TscOutput.digits column ->
  TscOutput.match_line TscOutput.line_tail
    (file ++ TscOutput.position_text line_digits column ++ after)
  = Some (Found 0
            (List.length (file ++ TscOutput.position_text line_digits column))
            (file ++ TscOutput.position_text line_digits column)
            [(2, line_digits); (1, file)]).
Proof.
  intros [|x f] d d2 b Hne Hf Hp Hd Hd2; [now elim Hne|].
  cbn [forallb] in Hf. apply andb_prop in Hf. destruct Hf as [Hx Hf].
  unfold has_char in Hp. cbn [existsb] in Hp. apply orb_false_elim in Hp.
  destruct Hp as [_ Hp].
  unfold TscOutput.match_line. cbn [app]. rewrite Hx.
  rewrite lazy_dots_skips by assumption.
  rewrite (lazy_dots_hit _ _ _ _ (exec_line_tail d d2 _ b _ Hd Hd2)).
  cbn [seen caps]. rewrite !rev_app_distr, !rev_involutive. cbn [rev app].
  f_equal. f_equal.
  repeat (rewrite ?length_app, ?length_rev; cbn [List.length]). lia.
Qed.

Lemma diagnostic_line_parsed_witness :
  TscOutput.match_line TscOutput.line_tail Samples.diagnostic_line
  = Some Samples.diagnostic_match.
Proof.
  apply (diagnostic_line_parsed (str "src/api/billing/invoice.controller.ts")
           (str "42") (str "17") (str ".")).
  - discriminate.
  - reflexivity.
  - reflexivity.
  - split; [discriminate|reflexivity].
  - split; [discriminate|reflexivity].
Defined.

(** ** The file list and the error table *)

Section TscTableFacts.

Import TscOutput.

Lemma nat_of_ascii_inj : forall x y : ascii,
  nat_of_ascii x = nat_of_ascii y -> x = y.
Proof.
  intros x y H. rewrite <- (ascii_nat_embedding x), <- (ascii_nat_embedding y).
  now rewrite H.
Qed.

Lemma text_leb_antisym : forall a b : text,
  text_leb a b = true -> text_leb b a = true -> a = b.
Proof.
  induction a as [|x a IH]; intros [|y b] H1 H2; try reflexivity;
    try discriminate.
  cbn [text_leb] in H1, H2.
  destruct (Nat.ltb_spec (nat_of_ascii x) (nat_of_ascii y)) as [L1|L1];
    destruct (Nat.ltb_spec (nat_of_ascii y) (nat_of_ascii x)) as [L2|L2];
    try discriminate; try lia.
  assert (E : x = y) by (apply nat_of_ascii_inj; lia).
  subst y. f_equal. now apply IH.
Qed.

Lemma text_lt_trans : forall a b c : text,
  text_lt a b -> text_lt b c -> text_lt a c.
Proof.
  unfold text_lt.
  induction a as [|x a IH]; intros [|y b] [|z c] H1 H2; try discriminate;
    try reflexivity; cbn [text_leb] in *.
  destruct (Nat.ltb_spec (nat_of_ascii y) (nat_of_ascii x)) as [L1|L1];
    [discriminate|].
  destruct (Nat.ltb_spec (nat_of_ascii z) (nat_of_ascii y)) as [L2|L2];
    [discriminate|].
  destruct (Nat.ltb_spec (nat_of_ascii x) (nat_of_ascii y)) as [L3|L3];
    destruct (Nat.ltb_spec (nat_of_ascii y) (nat_of_ascii z)) as [L4|L4];
    destruct (Nat.ltb_spec (nat_of_ascii z) (nat_of_ascii x)) as [L5|L5];
    destruct (Nat.ltb_spec (nat_of_ascii x) (nat_of_ascii z)) as [L6|L6];
    try lia; try reflexivity; try discriminate.
  now apply (IH b c).
Qed.

Lemma insert_text_in : forall (x y : text) (l : list text),
  In y (insert_text x l) <-> y = x \/ In y l.
Proof.
  intros x y. induction l as [|z l IH]; cbn [insert_text].
  - cbn. intuition.
  - destruct (text_leb x z); cbn [In]; [intuition|]. rewrite IH. intuition.
Qed.

Lemma insert_text_strict : forall (x : text) (l : list text),
  StronglySorted text_lt l -> ~ In x l ->
  StronglySorted text_lt (insert_text x l).
Proof.
  intros x. induction l as [|y l IH]; intros Hs Hx; cbn [insert_text].
  - constructor; constructor.
  - inversion Hs as [|? ? Hs' Hall]; subst.
    destruct (text_leb x y) eqn:E.
    + assert (Hxy : text_lt x y).
      { unfold text_lt. destruct (text_leb y x) eqn:E'; [|reflexivity].
        exfalso. apply Hx. left. now apply text_leb_antisym. }
      constructor; [exact Hs|]. constructor; [exact Hxy|].
      rewrite Forall_forall in Hall |- *. intros z Hz.
      apply (text_lt_trans x y z); [exact Hxy|now apply Hall].
    + constructor.
      * apply IH; [exact Hs'|]. intros Hin. apply Hx. now right.
      * rewrite Forall_forall in Hall |- *. intros z Hz.
        apply insert_text_in in Hz. destruct Hz as [->|Hz];
          [exact E|now apply Hall].
Qed.

Lemma sorted_texts_in : forall (y : text) (l : list text),
  In y (sorted_texts l) <-> In y l.
Proof.
  intros y. induction l as [|x l IH]; [reflexivity|].
  cbn [sorted_texts fold_right]. rewrite insert_text_in.
  fold (sorted_texts l). rewrite IH. cbn [In]. intuition.
Qed.

Lemma sorted_texts_strict : forall l : list text,
  NoDup l -> StronglySorted text_lt (sorted_texts l).
Proof.
  induction l as [|x l IH]; intros Hn; [constructor|].
  inversion Hn as [|? ? Hx Hn']; subst.
  cbn [sorted_texts fold_right]. fold (sorted_texts l).
  apply insert_text_strict; [now apply IH|]. now rewrite sorted_texts_in.
Qed.

Lemma existsb_text_eqb : forall (x : text) (l : list text),
  existsb (text_eqb x) l = true <-> In x l.
Proof.
  intros x l. rewrite existsb_exists. split.
  - intros (y & Hy & E). unfold text_eqb in E.
    destruct (list_eq_dec ascii_dec x y); [now subst|discriminate].
  - intros H. exists x. split; [exact H|apply text_eqb_refl].
Qed.

Lemma set_add_in : forall (x y : text) (l : list text),
  In y (set_add x l) <-> y = x \/ In y l.
Proof.
  intros x y l. unfold set_add.
  destruct (existsb (text_eqb x) l) eqn:E.
  - apply existsb_text_eqb in E. split; [now right|].
    intros [->|H]; assumption.
  - rewrite in_app_iff. cbn [In]. intuition.
Qed.

Lemma set_add_nodup : forall (x : text) (l : list text),
  NoDup l -> NoDup (set_add x l).
Proof.
  intros x l H. unfold set_add.
  destruct (existsb (text_eqb x) l) eqn:E; [exact H|].
  assert (Hx : ~ In x l).
  { intros Hin. apply existsb_text_eqb in Hin. congruence. }
  clear E. induction l as [|y l IH]; cbn [app].
  - constructor; [intros []|constructor].
  - inversion H as [|? ? Hy Hl]; subst. constructor.
    + rewrite in_app_iff. cbn [In]. intros [Hin|[->|[]]]; [now apply Hy|].
      apply Hx. now left.
    + apply IH; [exact Hl|]. intros Hin. apply Hx. now right.
Qed.

Lemma collect_files_nodup : forall (lines files : list text),
  NoDup files -> NoDup (collect_files lines files).
Proof.
  induction lines as [|line lines IH]; intros files H; [exact H|].
  cbn [collect_files].
  destruct (match_line position_tail line);
    [apply IH; now apply set_add_nodup|now apply IH].
Qed.

Lemma collect_files_in : forall (file : text) (lines files : list text),
  In file (collect_files lines files) <->
  In file files \/
  exists line m, In line lines /\
                 match_line position_tail line = Some m /\ group 1 m = file.
Proof.
  intros file. induction lines as [|line lines IH]; intros files.
  - cbn [collect_files]. split; [now left|].
    intros [H|(l & m & [] & _)]; exact H.
  - cbn [collect_files].
    destruct (match_line position_tail line) as [m|] eqn:E; rewrite IH.
    + rewrite set_add_in. split.
      * intros [[->|H]|(l & m' & Hl & Hm & Hg)].
        -- right. exists line, m. repeat split; [now left|exact E].
        -- now left.
        -- right. exists l, m'. repeat split; [now right|exact Hm|exact Hg].
      * intros [H|(l & m' & [->|Hl] & Hm & Hg)].
        -- left. now right.
        -- left. left. rewrite E in Hm. injection Hm as <-. now symmetry.
        -- right. now exists l, m'.
    + split.
      * intros [H|(l & m' & Hl & Hm & Hg)]; [now left|].
        right. exists l, m'. repeat split; [now right|exact Hm|exact Hg].
      * intros [H|(l & m' & [->|Hl] & Hm & Hg)]; [now left|congruence|].
        right. now exists l, m'.
Qed.

Lemma text_eqb_sym : forall a b : text, text_eqb a b = text_eqb b a.
Proof.
  intros a b. unfold text_eqb.
  destruct (list_eq_dec ascii_dec a b), (list_eq_dec ascii_dec b a);
    congruence.
Qed.

Lemma text_eqb_eq : forall a b : text, text_eqb a b = true -> a = b.
Proof.
  intros a b H. unfold text_eqb in H.
  now destruct (list_eq_dec ascii_dec a b).
Qed.

(** The keys of the dict grow as the set of [get_files_with_errors] does. *)
Lemma add_error_keys : forall (file : text) (n : nat) (errors : list (text * list nat)),
  map fst (add_error file n errors) = set_add file (map fst errors).
Proof.
  intros file n. unfold set_add.
  induction errors as [|[f ns] errors IH]; [reflexivity|].
  cbn [add_error map fst existsb]. rewrite (text_eqb_sym file f).
  destruct (text_eqb f file) eqn:E; cbn [orb map fst]; [reflexivity|].
  rewrite IH. now destruct (existsb (text_eqb file) (map fst errors)).
Qed.

Lemma add_error_entry : forall (file f : text) (n : nat)
                               (errors : list (text * list nat)),
  entry f (add_error file n errors)
  = if text_eqb file f then entry f errors ++ [n] else entry f errors.
Proof.
  intros file f n. induction errors as [|[g ns] errors IH].
  - cbn [add_error entry]. now destruct (text_eqb file f).
  - cbn [add_error]. destruct (text_eqb g file) eqn:E.
    + apply text_eqb_eq in E. subst g. cbn [entry].
      now destruct (text_eqb file f).
    + cbn [entry]. destruct (text_eqb g f) eqn:E'.
      * apply text_eqb_eq in E'. subst g. now rewrite text_eqb_sym, E.
      * exact IH.
Qed.

Lemma add_error_filled : forall (file : text) (n : nat)
                                (errors : list (text * list nat)),
  filled errors -> filled (add_error file n errors).
Proof.
  intros file n. induction errors as [|[g ns] errors IH]; intros H f ms Hin.
  - cbn in Hin. destruct Hin as [[= _ <-]|[]]. discriminate.
  - cbn [add_error] in Hin. destruct (text_eqb g file).
    + destruct Hin as [[= _ <-]|Hin].
      * intros E. now apply app_eq_nil in E.
      * apply (H f). now right.
    + destruct Hin as [[= <- <-]|Hin].
      * apply (H g). now left.
      * apply IH in Hin; [exact Hin|]. intros f' ms' Hin'. apply (H f').
        now right.
Qed.

Lemma filled_key_entry : forall (file : text) (errors : list (text * list nat)),
  filled errors -> (In file (map fst errors) <-> entry file errors <> []).
Proof.
  intros file. induction errors as [|[g ns] errors IH]; intros H.
  - cbn. intuition.
  - assert (H' : filled errors).
    { intros f' ms' Hin'. apply (H f'). now right. }
    cbn [map fst In entry]. destruct (text_eqb g file) eqn:E.
    + apply text_eqb_eq in E. subst g. split; [|now left].
      intros _. apply (H file). now left.
    + apply text_eqb_false in E. rewrite <- (IH H'). intuition.
Qed.

Lemma int_fits : forall (limit : nat) (s : text),
  limit = 0 \/ List.length s <= limit -> int limit s = Some (int_of_digits s).
Proof.
  intros limit s H. unfold int.
  destruct (Nat.ltb_spec 0 limit); [|reflexivity].
  destruct (Nat.ltb_spec limit (List.length s)); [lia|reflexivity].
Qed.

Lemma numbers_fit_tail : forall limit line lines,
  numbers_fit limit (line :: lines) -> numbers_fit limit lines.
Proof.
  intros limit line lines [H|H]; [now left|right].
  intros l m Hl. apply H. now right.
Qed.

Lemma collect_errors_runs : forall (limit : nat) (lines : list text)
                                   (errors : list (text * list nat)),
  numbers_fit limit lines ->
  exists errors',
    collect_errors limit lines errors = Some errors' /\
    map fst errors' = collect_files lines (map fst errors) /\
    (filled errors -> filled errors') /\
    forall f, entry f errors' = entry f errors ++ line_numbers_of f lines.
Proof.
  intros limit. induction lines as [|line lines IH]; intros errors Hfit.
  - exists errors. cbn [collect_errors collect_files line_numbers_of flat_map].
    repeat split; [tauto|]. intros f. now rewrite app_nil_r.
  - cbn [collect_errors collect_files]. unfold line_numbers_of.
    cbn [flat_map]. fold (line_numbers_of).
    pose proof (match_line_alike line) as Ha.
    destruct (match_line line_tail line) as [m|] eqn:E;
      destruct (match_line position_tail line) as [m'|] eqn:E';
      try discriminate Ha.
    + cbn [option_map] in Ha. injection Ha as Ha.
      rewrite int_fits.
      2:{ destruct Hfit as [H|H]; [now left|right].
          apply (H line m); [now left|exact E]. }
      destruct (IH (add_error (group 1 m) (int_of_digits (group 2 m)) errors)
                  (numbers_fit_tail _ _ _ Hfit))
        as (e' & Hc & Hk & Hf & He).
      exists e'. split; [exact Hc|]. split; [|split].
      * rewrite Hk, add_error_keys, Ha. reflexivity.
      * intros H. apply Hf. now apply add_error_filled.
      * intros f. rewrite He, add_error_entry.
        fold (line_numbers_of f lines).
        destruct (text_eqb (group 1 m) f); [now rewrite <- app_assoc|reflexivity].
    + destruct (IH errors (numbers_fit_tail _ _ _ Hfit))
        as (e' & Hc & Hk & Hf & He).
      exists e'. split; [exact Hc|]. split; [exact Hk|]. split; [exact Hf|].
      intros f. rewrite He. reflexivity.
Qed.

Lemma collect_errors_raises : forall (limit : nat) (lines : list text)
                                     (errors : list (text * list nat))
                                     (line : text) (m : found),
  0 < limit -> In line lines -> match_line line_tail line = Some m ->
  limit < List.length (group 2 m) ->
  collect_errors limit lines errors = None.
Proof.
  intros limit. induction lines as [|l lines IH];
    intros errors line m Hl Hin Hm Hlen; [destruct Hin|].
  cbn [collect_errors]. destruct Hin as [->|Hin].
  - rewrite Hm. unfold int.
    destruct (Nat.ltb_spec 0 limit); [|lia].
    destruct (Nat.ltb_spec limit (List.length (group 2 m))); [reflexivity|lia].
  - destruct (match_line line_tail l) as [m0|];
      [|now apply (IH errors line m)].
    destruct (int limit (group 2 m0)); [|reflexivity].
    now apply (IH _ line m).
Qed.

End TscTableFacts.

(** X17.  [get_files_with_errors] returns each file once and in ascending
    order of the code points: the list is strictly sorted, and a file is in
    it exactly when some line of the output matches with that file as
    group 1. *)
Theorem files_listed_once_in_order : forall stdout stderr : text,
  StronglySorted TscOutput.text_lt
    (TscOutput.get_files_with_errors stdout stderr) /\
  forall file : text,
    In file (TscOutput.get_files_with_errors stdout stderr) <->
    exists line m,
      In line (TscOutput.splitlines stdout ++ TscOutput.splitlines stderr) /\
      TscOutput.match_line TscOutput.position_tail line = Some m /\
      group 1 m = file.
Proof.
  intros stdout stderr. unfold TscOutput.get_files_with_errors. split.
  - apply sorted_texts_strict, collect_files_nodup. constructor.
  - intros file. rewrite sorted_texts_in, collect_files_in. cbn [In]. tauto.
Qed.

(** X18.  The two parsers see the same files: unless a line number is too
    long for [int], the keys of the dict of [get_errors], sorted, are the
    list [get_files_with_errors] returns for the same output. *)
Theorem parsers_agree_on_files : forall (max_str_digits : nat)
                                        (stdout stderr : text),
  TscOutput.numbers_fit max_str_digits
    (TscOutput.splitlines stdout ++ TscOutput.splitlines stderr) ->
  TscOutput.sorted_texts
    (map fst (TscOutput.get_errors max_str_digits stdout stderr))
  = TscOutput.get_files_with_errors stdout stderr.
Proof.
  intros limit stdout stderr Hfit.
  unfold TscOutput.get_errors, TscOutput.get_files_with_errors.
  destruct (collect_errors_runs limit _ [] Hfit) as (e & -> & Hk & _).
  now rewrite Hk.
Qed.

(** X19.  One line number with more digits than [int] accepts empties the
    whole table: [get_errors] returns the empty dict, whatever the other
    lines of the output hold. *)
Theorem long_line_number_empties_table : forall (max_str_digits : nat)
    (stdout stderr line : text) (m : found),
  0 < max_str_digits ->
  In line (TscOutput.splitlines stdout ++ TscOutput.splitlines stderr) ->
  TscOutput.match_line TscOutput.line_tail line = Some m ->
  max_str_digits < List.length (group 2 m) ->
  TscOutput.get_errors max_str_digits stdout stderr = [].
Proof.
  intros limit stdout stderr line m Hl Hin Hm Hlen.
  unfold TscOutput.get_errors.
  now rewrite (collect_errors_raises limit _ [] line m Hl Hin Hm Hlen).
Qed.

(** X20.  Unless a line number is too long for [int], the dict of
    [get_errors] groups the diagnostics by file: its keys are distinct, the
    list under a file holds the line numbers of that file's diagnostics in
    the order of the output, and a file is a key exactly when it has a
    diagnostic. *)
Theorem errors_grouped_by_file : forall (max_str_digits : nat)
                                        (stdout stderr : text),
  TscOutput.numbers_fit max_str_digits
    (TscOutput.splitlines stdout ++ TscOutput.splitlines stderr) ->
  NoDup (map fst (TscOutput.get_errors max_str_digits stdout stderr)) /\
  (forall file : text,
     TscOutput.entry file (TscOutput.get_errors max_str_digits stdout stderr)
     = TscOutput.line_numbers_of file
         (TscOutput.splitlines stdout ++ TscOutput.splitlines stderr)) /\
  (forall file : text,
     In file (map fst (TscOutput.get_errors max_str_digits stdout stderr)) <->
     TscOutput.line_numbers_of file
       (TscOutput.splitlines stdout ++ TscOutput.splitlines stderr) <> []).
Proof.
  intros limit stdout stderr Hfit. unfold TscOutput.get_errors.
  destruct (collect_errors_runs limit _ [] Hfit) as (e & -> & Hk & Hf & He).
  assert (Hfilled : TscOutput.filled e) by (apply Hf; intros f ns []).
  split; [|split].
  - rewrite Hk. apply collect_files_nodup. constructor.
  - intros file. now rewrite He.
  - intros file. rewrite (filled_key_entry file e Hfilled). now rewrite He.
Qed.

Lemma parsers_agree_on_files_witness :
  TscOutput.sorted_texts
    (map fst (TscOutput.get_errors 4300 Samples.tsc_stdout []))
  = TscOutput.get_files_with_errors Samples.tsc_stdout [].
Proof.
  apply (parsers_agree_on_files 4300 Samples.tsc_stdout []).
  right. intros line m Hin Hm. vm_compute in Hin.
  repeat destruct Hin as [<-|Hin]; try contradiction;
    vm_compute in Hm; try discriminate Hm;
    injection Hm as <-; apply Nat.leb_le; vm_compute; reflexivity.
Defined.

Lemma long_line_number_empties_table_witness :
  TscOutput.get_errors 4300 Samples.long_number_stdout [] = [].
Proof.
  apply (long_line_number_empties_table 4300 Samples.long_number_stdout []
           Samples.long_number_line Samples.long_number_match).
  - apply Nat.ltb_lt. vm_compute. reflexivity.
  - vm_compute. right. left. reflexivity.
  - vm_compute. reflexivity.
  - apply Nat.ltb_lt. vm_compute. reflexivity.
Defined.

Lemma errors_grouped_by_file_witness :
  NoDup (map fst (TscOutput.get_errors 4300 Samples.tsc_stdout [])) /\
  (forall file : text,
     TscOutput.entry file (TscOutput.get_errors 4300 Samples.tsc_stdout [])
     = TscOutput.line_numbers_of file
         (TscOutput.splitlines Samples.tsc_stdout ++ TscOutput.splitlines [])) /\
  (forall file : text,
     In file (map fst (TscOutput.get_errors 4300 Samples.tsc_stdout [])) <->
     TscOutput.line_numbers_of file
       (TscOutput.splitlines Samples.tsc_stdout ++ TscOutput.splitlines [])
     <> []).
Proof.
  apply (errors_grouped_by_file 4300 Samples.tsc_stdout []).
  right. intros line m Hin Hm. vm_compute in Hin.
  repeat destruct Hin as [<-|Hin]; try contradiction;
    vm_compute in Hm; try discriminate Hm;
    injection Hm as <-; apply Nat.leb_le; vm_compute; reflexivity.
Defined.
